(** * foliate-js [view.js]: navigation history, location resolution,
      overlay registry, search and media-overlay synchronisation.

    A shallow embedding of [src/view.js].  JavaScript numbers are IEEE
    binary64 values, embedded as Rocq's primitive floats, so comparisons
    against NaN and signed zeros behave as they do in the source. *)

From Stdlib Require Import ZArith Uint63 Floats Bool List String Lia.
From stdpp Require Import base option list gmap strings.

Set Warnings "-inexact-float".

(* ===================================================================== *)
(** ** JavaScript values *)
(* ===================================================================== *)

Module JS.

(** Errors that the embedded code can raise or receive from a collaborator. *)
Inductive JsError : Type :=
  | TypeError
  | External (msg : string).

(** Outcome of evaluating a piece of code: a value, or a thrown error
    (for an async function: a fulfilled or a rejected promise). *)
Inductive Completion (A : Type) : Type :=
  | Normal (a : A)
  | Throw (e : JsError).
Arguments Normal {A} a.
Arguments Throw {A} e.

Definition bind {A B} (c : Completion A) (k : A -> Completion B) : Completion B :=
  match c with
  | Normal a => k a
  | Throw e => Throw e
  end.

Notation "'let!' x ':=' c 'in' k" := (bind c (fun x => k))
  (at level 10, x name, c at level 100, k at level 200).

(** The values that flow through the history and the resolver: primitives
    and objects.  An object is known by its identity [ref] and by the value
    of its [fraction] property ([VUndefined] when the property is absent). *)
Inductive Value : Type :=
  | VUndefined
  | VNull
  | VBool (b : bool)
  | VNumber (n : float)
  | VString (s : string)
  | VObject (ref : nat) (fraction : Value).

(** [!x] is false: ToBoolean. *)
Definition truthy_number (n : float) : bool :=
  negb (PrimFloat.is_zero n || PrimFloat.is_nan n).

Definition truthy (v : Value) : bool :=
  match v with
  | VUndefined | VNull => false
  | VBool b => b
  | VNumber n => truthy_number n
  | VString s => negb (String.eqb s "")
  | VObject _ _ => true
  end.

(** [a === b]: numbers by IEEE equality, strings by content, objects by
    identity. *)
Definition strict_equal (a b : Value) : bool :=
  match a, b with
  | VUndefined, VUndefined => true
  | VNull, VNull => true
  | VBool x, VBool y => Bool.eqb x y
  | VNumber x, VNumber y => PrimFloat.eqb x y
  | VString x, VString y => String.eqb x y
  | VObject r _, VObject r' _ => Nat.eqb r r'
  | _, _ => false
  end.

(** [x.fraction] *)
Definition get_fraction (x : Value) : Completion Value :=
  match x with
  | VUndefined | VNull => Throw TypeError
  | VObject _ f => Normal f
  | _ => Normal VUndefined
  end.

(** [x?.fraction] *)
Definition get_fraction_opt (x : Value) : Value :=
  match x with
  | VObject _ f => f
  | _ => VUndefined
  end.

(** [typeof v === 'number'] *)
Definition is_number (v : Value) : bool :=
  match v with VNumber _ => true | _ => false end.

(** [Math.max(a, b)] and [Math.min(a, b)]: NaN if either argument is NaN,
    and [+0] is larger than [-0]. *)
Definition math_max (a b : float) : float :=
  if PrimFloat.is_nan a || PrimFloat.is_nan b then PrimFloat.nan
  else if PrimFloat.ltb a b then b
  else if PrimFloat.ltb b a then a
  else if PrimFloat.get_sign a then b else a.

Definition math_min (a b : float) : float :=
  if PrimFloat.is_nan a || PrimFloat.is_nan b then PrimFloat.nan
  else if PrimFloat.ltb a b then a
  else if PrimFloat.ltb b a then b
  else if PrimFloat.get_sign a then a else b.

(** A JavaScript array of values.  Integer keys from 0 are the elements;
    a write at a negative key creates an ordinary property and leaves the
    length alone; a write past the end grows the array, the gap reading as
    [undefined]. *)
Record JsArray : Type := mkArray {
  elems : list Value;
  props : gmap Z Value
}.

Definition empty_array : JsArray := mkArray [] ∅.

Definition arr_length (a : JsArray) : Z := Z.of_nat (length (elems a)).

Definition arr_get (a : JsArray) (i : Z) : Value :=
  if (0 <=? i)%Z then default VUndefined (elems a !! Z.to_nat i)
  else default VUndefined (props a !! i).

Definition arr_set (a : JsArray) (i : Z) (x : Value) : JsArray :=
  if (0 <=? i)%Z then
    if (i <? arr_length a)%Z
    then mkArray (<[Z.to_nat i := x]> (elems a)) (props a)
    else mkArray (elems a ++ replicate (Z.to_nat i - length (elems a)) VUndefined ++ [x])
                 (props a)
  else mkArray (elems a) (<[i := x]> (props a)).

(** [a.length = n], for [n >= 0]. *)
Definition arr_set_length (a : JsArray) (n : Z) : JsArray :=
  if (n <=? arr_length a)%Z
  then mkArray (take (Z.to_nat n) (elems a)) (props a)
  else mkArray (elems a ++ replicate (Z.to_nat n - length (elems a)) VUndefined) (props a).

End JS.

Import JS.

(* ===================================================================== *)
(** ** [class History] *)
(* ===================================================================== *)

Module History.

(** Events the history dispatches to its listeners. *)
Inductive Event : Type :=
  | IndexChange
  | PopState (state : Value).

(** [#arr] and [#index]. *)
Record t : Type := mk {
  arr : JsArray;
  index : Z
}.

(** [new History()] *)
Definition new : t := mk empty_array (-1).

(** The test that guards [pushState]:
    [last === x || last?.fraction && last.fraction === x.fraction]. *)
Definition coalesces (h : t) (x : Value) : Completion bool :=
  let last := arr_get (arr h) (index h) in
  if strict_equal last x then Normal true
  else if truthy (get_fraction_opt last) then
    let! lf := get_fraction last in
    let! xf := get_fraction x in
    Normal (strict_equal lf xf)
  else Normal false.

Definition pushState (h : t) (x : Value) : Completion (t * list Event) :=
  let! c := coalesces h x in
  if (c : bool) then Normal (h, [])
  else
    let i := (index h + 1)%Z in
    let a := arr_set (arr h) i x in
    Normal (mk (arr_set_length a (i + 1)) i, [IndexChange]).

Definition replaceState (h : t) (x : Value) : t :=
  mk (arr_set (arr h) (index h) x) (index h).

Definition back (h : t) : t * list Event :=
  let i := index h in
  if (i <=? 0)%Z then (h, [])
  else
    let state := arr_get (arr h) (i - 1) in
    (mk (arr h) (i - 1), [PopState state; IndexChange]).

Definition forward (h : t) : t * list Event :=
  let i := index h in
  if (i >=? arr_length (arr h) - 1)%Z then (h, [])
  else
    let state := arr_get (arr h) (i + 1) in
    (mk (arr h) (i + 1), [PopState state; IndexChange]).

Definition canGoBack (h : t) : bool := (index h >? 0)%Z.

Definition canGoForward (h : t) : bool := (index h <? arr_length (arr h) - 1)%Z.

Definition clear (h : t) : t := mk empty_array (-1).

(** The pointer is [-1] over an empty array, or a valid array index. *)
Definition pointer_ok (h : t) : Prop :=
  (index h = -1 ∧ elems (arr h) = [])%Z
  ∨ (0 <= index h < arr_length (arr h))%Z.

(** The state a push that does not coalesce leaves behind. *)
Definition pushed (h : t) (x : Value) : t :=
  mk (mkArray (take (Z.to_nat (index h + 1)) (elems (arr h)) ++ [x]) (props (arr h)))
     (index h + 1).

End History.

(* ===================================================================== *)
(** ** Facts about [History] *)
(* ===================================================================== *)

Module HistoryFacts.
Import History.

Local Open Scope Z_scope.

Lemma pointer_ok_new : pointer_ok new.
Proof. left. done. Qed.

(** Writing at [index + 1] and cutting the length to [index + 2] keeps the
    entries up to the old pointer and puts [x] last. *)
Lemma push_truncates (h : t) (x : Value) :
  pointer_ok h →
  arr_set_length (arr_set (arr h) (index h + 1) x) (index h + 1 + 1)
  = mkArray (take (Z.to_nat (index h + 1)) (elems (arr h)) ++ [x]) (props (arr h)).
Proof.
  intros Hok. destruct h as [[l ps] i]; simpl in *.
  unfold pointer_ok, arr_length in Hok; simpl in Hok.
  unfold arr_set, arr_set_length, arr_length; simpl.
  assert (Hi : 0 <= i + 1 <= Z.of_nat (length l)) by (destruct Hok as [[-> ->]|?]; simpl; lia).
  destruct (Z.leb_spec 0 (i + 1)); [|lia].
  destruct (Z.ltb_spec (i + 1) (Z.of_nat (length l))); simpl.
  - rewrite length_insert.
    destruct (Z.leb_spec (i + 1 + 1) (Z.of_nat (length l))); [|lia].
    f_equal.
    replace (Z.to_nat (i + 1 + 1)) with (S (Z.to_nat (i + 1))) by lia.
    rewrite (take_S_r _ _ x).
    + rewrite take_insert_ge by lia. done.
    + apply list_lookup_insert_eq. lia.
  - assert (Hlen : Z.to_nat (i + 1) = length l) by lia.
    rewrite Hlen, Nat.sub_diag. simpl.
    rewrite length_app. simpl.
    destruct (Z.leb_spec (i + 1 + 1) (Z.of_nat (length l + 1))); [|lia].
    f_equal.
    rewrite (take_ge l) by lia.
    apply take_ge. rewrite length_app. simpl. lia.
Qed.

Lemma pushState_fresh (h : t) (x : Value) :
  pointer_ok h → coalesces h x = Normal false →
  pushState h x = Normal (pushed h x, [IndexChange]).
Proof.
  intros Hok Hc. unfold pushState. rewrite Hc. simpl.
  rewrite push_truncates by done. done.
Qed.

Lemma pushed_pointer_last (h : t) (x : Value) :
  pointer_ok h → index (pushed h x) = arr_length (arr (pushed h x)) - 1.
Proof.
  intros Hok. unfold pushed, arr_length; simpl.
  rewrite length_app, length_take. simpl.
  destruct Hok as [[Hi Hl]|Hi]; [rewrite Hi, Hl; simpl; lia|].
  unfold arr_length in Hi. lia.
Qed.

Lemma pointer_ok_pushed (h : t) (x : Value) : pointer_ok h → pointer_ok (pushed h x).
Proof.
  intros Hok. right. rewrite (pushed_pointer_last h x Hok).
  unfold pushed, arr_length; simpl. rewrite length_app. simpl.
  destruct Hok as [[Hi _]|Hi]; lia.
Qed.

Lemma pointer_ok_pushState (h h' : t) (x : Value) (ev : list Event) :
  pointer_ok h → pushState h x = Normal (h', ev) → pointer_ok h'.
Proof.
  intros Hok. unfold pushState.
  destruct (coalesces h x) as [[|]|e] eqn:Hc; simpl; intros Heq; try discriminate.
  - injection Heq as <- _. done.
  - rewrite push_truncates in Heq by done. injection Heq as <- _.
    by apply pointer_ok_pushed.
Qed.

Lemma pointer_ok_replaceState (h : t) (x : Value) :
  pointer_ok h → pointer_ok (replaceState h x).
Proof.
  intros [[Hi Hl]|Hi]; unfold replaceState, arr_set.
  - left. rewrite Hi. simpl. done.
  - right. simpl. unfold arr_length in *.
    destruct (Z.leb_spec 0 (index h)); [|lia].
    destruct (Z.ltb_spec (index h) (Z.of_nat (length (elems (arr h))))); [|lia].
    simpl. rewrite length_insert. lia.
Qed.

Lemma pointer_ok_back (h : t) : pointer_ok h → pointer_ok (back h).1.
Proof.
  intros Hok. unfold back. destruct (Z.leb_spec (index h) 0); simpl; [done|].
  right. simpl. destruct Hok as [[Hi _]|Hi]; lia.
Qed.

Lemma pointer_ok_forward (h : t) : pointer_ok h → pointer_ok (forward h).1.
Proof.
  intros Hok. unfold forward.
  destruct (index h >=? arr_length (arr h) - 1) eqn:Hge; simpl; [done|].
  rewrite Z.geb_leb in Hge. apply Z.leb_gt in Hge.
  right. simpl. destruct Hok as [[Hi Hl]|Hi]; [|lia].
  unfold arr_length in Hge. rewrite Hi, Hl in Hge. simpl in Hge. lia.
Qed.

Lemma pointer_ok_clear (h : t) : pointer_ok (clear h).
Proof. left. done. Qed.

(** C7. Every History operation keeps the pointer at [-1] over an empty
    array or at a valid array index; a [pushState] that does not coalesce
    leaves the pointer on the last index of the array, the entries past the
    old pointer being cut off, also when the push follows a [back()]. *)
Theorem history_pointer_invariant (h : t) (x : Value) :
  pointer_ok h →
  (∀ h' ev, pushState h x = Normal (h', ev) → pointer_ok h')
  ∧ pointer_ok (replaceState h x)
  ∧ pointer_ok (back h).1
  ∧ pointer_ok (forward h).1
  ∧ pointer_ok (clear h)
  ∧ (coalesces h x = Normal false →
       pushState h x = Normal (pushed h x, [IndexChange])
       ∧ index (pushed h x) = arr_length (arr (pushed h x)) - 1
       ∧ elems (arr (pushed h x))
         = take (Z.to_nat (index h + 1)) (elems (arr h)) ++ [x])
  ∧ (coalesces (back h).1 x = Normal false →
       pushState (back h).1 x = Normal (pushed (back h).1 x, [IndexChange])
       ∧ index (pushed (back h).1 x) = arr_length (arr (pushed (back h).1 x)) - 1).
Proof.
  intros Hok. repeat split.
  - intros h' ev. by apply pointer_ok_pushState.
  - by apply pointer_ok_replaceState.
  - by apply pointer_ok_back.
  - by apply pointer_ok_forward.
  - apply pointer_ok_clear.
  - by apply pushState_fresh.
  - by apply pushed_pointer_last.
  - apply pushState_fresh; [by apply pointer_ok_back|done].
  - apply pushed_pointer_last. by apply pointer_ok_back.
Qed.

(** A history holding three entries with the pointer on the second, as
    after three pushes and one [back()]. *)
Definition sample : t :=
  mk (mkArray [VNumber 0; VString "chapter1.xhtml"; VString "chapter2.xhtml"] ∅) 1.

Lemma history_pointer_invariant_witness :
  pointer_ok sample
  ∧ pushState sample (VString "chapter3.xhtml")
    = Normal (mk (mkArray [VNumber 0; VString "chapter1.xhtml"; VString "chapter3.xhtml"] ∅) 2,
              [IndexChange]).
Proof.
  assert (Hok : pointer_ok sample) by (right; unfold arr_length; simpl; lia).
  split; [exact Hok|].
  destruct (history_pointer_invariant sample (VString "chapter3.xhtml") Hok)
    as (_ & _ & _ & _ & _ & Hpush & _).
  destruct (Hpush eq_refl) as [Heq _]. exact Heq.
Defined.

(** *** Coalescing *)

Lemma arr_get_pushed (h : t) (x : Value) :
  pointer_ok h → arr_get (arr (pushed h x)) (index (pushed h x)) = x.
Proof.
  intros Hok. unfold pushed, arr_get; simpl.
  assert (Hi : 0 <= index h + 1 <= arr_length (arr h)).
  { unfold arr_length. destruct Hok as [[-> ->]|Hi]; simpl; [lia|].
    unfold arr_length in Hi. lia. }
  destruct (Z.leb_spec 0 (index h + 1)); [|lia].
  unfold arr_length in Hi.
  rewrite lookup_app_r; rewrite length_take; [|lia].
  replace (Z.to_nat (index h + 1) - _)%nat with 0%nat by lia. done.
Qed.

(** Pushing the entry that is already current (the same number or string,
    or the very same object) changes nothing. *)
Lemma pushState_current_entry (h : t) (x : Value) :
  strict_equal (arr_get (arr h) (index h)) x = true →
  pushState h x = Normal (h, []).
Proof. intros Heq. unfold pushState, coalesces. rewrite Heq. done. Qed.

(** Pushing a fraction wrapper over a current fraction wrapper whose
    fraction is numerically equal and is neither zero nor NaN changes
    nothing. *)
Lemma pushState_equal_fraction (h : t) (r r' : nat) (f f' : float) :
  arr_get (arr h) (index h) = VObject r' (VNumber f') →
  truthy_number f' = true →
  PrimFloat.eqb f' f = true →
  pushState h (VObject r (VNumber f)) = Normal (h, []).
Proof.
  intros Hlast Ht Heq. unfold pushState, coalesces. rewrite Hlast. simpl.
  rewrite Ht. simpl. rewrite Heq. by destruct (r' =? r)%nat.
Qed.

(** Pushing one and the same object twice in a row: the second push is a
    no-op. *)
Lemma pushState_same_object_twice (h h1 : t) (r : nat) (f : Value) (ev : list Event) :
  pointer_ok h →
  pushState h (VObject r f) = Normal (h1, ev) →
  pushState h1 (VObject r f) = Normal (h1, []).
Proof.
  intros Hok. unfold pushState at 1.
  destruct (coalesces h (VObject r f)) as [[|]|e] eqn:Hc; simpl; intros Heq;
    try discriminate.
  - injection Heq as <- _. unfold pushState. rewrite Hc. done.
  - rewrite push_truncates in Heq by done. injection Heq as <- _.
    apply pushState_current_entry. fold (pushed h (VObject r f)).
    rewrite arr_get_pushed by done. simpl. apply Nat.eqb_refl.
Qed.

(** The history after [goToFraction(0)] on a fresh history: one entry, the
    wrapper [{ fraction: 0 }]. *)
Definition after_first_zero : t := mk (mkArray [VObject 1 (VNumber 0)] ∅) 0.

(** C5 (evaluation at the failing input). A fraction wrapper whose fraction
    is 0 is current; pushing a second wrapper with the numerically equal
    fraction 0 is not coalesced: the array grows to two entries and the
    pointer moves to 1. *)
Theorem pushState_zero_fraction_not_coalesced :
  pushState new (VObject 1 (VNumber 0)) = Normal (after_first_zero, [IndexChange])
  ∧ arr_get (arr after_first_zero) (index after_first_zero) = VObject 1 (VNumber 0)
  ∧ PrimFloat.eqb 0 0 = true
  ∧ pushState after_first_zero (VObject 2 (VNumber 0))
    = Normal (mk (mkArray [VObject 1 (VNumber 0); VObject 2 (VNumber 0)] ∅) 1,
              [IndexChange]).
Proof. repeat split. Qed.

End HistoryFacts.

(* ===================================================================== *)
(** ** Media overlay: split detection and flip timing *)
(* ===================================================================== *)

Module Split.

Local Open Scope float_scope.

(** A [DOMRect], with the six properties the code reads. *)
Record DOMRect : Type := mkRect {
  left : float;
  right : float;
  top : float;
  bottom : float;
  width : float;
  height : float
}.

(** A DOM element or range: its identity and [getClientRects()]. *)
Record Element : Type := mkElement {
  uid : nat;
  getClientRects : list DOMRect
}.

(** [doc.defaultView]: the bounding rectangle of its [frameElement]
    ([None] when there is no frame element) and
    [getComputedStyle(doc.body)?.writingMode] ([None] when nullish). *)
Record Window : Type := mkWindow {
  frameElement : option DOMRect;
  writingMode : option string
}.

Record Document : Type := mkDocument {
  defaultView : option Window
}.

(** The renderer: [scrolled], [getBoundingClientRect?.()], 
    [getAttribute?.('dir')] and [atEnd]. *)
Record Renderer : Type := mkRenderer {
  scrolled : bool;
  getBoundingClientRect : option DOMRect;
  dir : option string;
  atEnd : bool
}.

(** The object literal [viewportRect]. *)
Record ViewportRect : Type := mkViewport {
  vleft : float;
  vright : float;
  vtop : float;
  vbottom : float
}.

Record SplitInfo : Type := mkSplitInfo {
  visibleRatio : float;
  offScreenRatio : float
}.

(** The four accumulators of the loop. *)
Record Areas : Type := mkAreas {
  totalArea : float;
  visibleArea : float;
  forwardArea : float;
  backwardArea : float
}.

(** What the guards of lines 327-355 establish before the loop runs. *)
Record Layout : Type := mkLayout {
  rects : list DOMRect;
  frameRect : DOMRect;
  viewportRect : ViewportRect;
  rtl : bool
}.

(** [!x] on a number. *)
Definition falsy (x : float) : bool := negb (truthy_number x).

(** One iteration of [for (const rect of rects)]. *)
Definition accumulate (rtl : bool) (frameRect : DOMRect) (viewportRect : ViewportRect)
    (acc : Areas) (rect : DOMRect) : Areas :=
  let area := width rect * height rect in
  if falsy area then acc
  else
    let totalArea' := totalArea acc + area in
    let globalLeft := left frameRect + left rect in
    let globalRight := left frameRect + right rect in
    let globalTop := top frameRect + top rect in
    let globalBottom := top frameRect + bottom rect in
    let overlapLeft := math_max globalLeft (vleft viewportRect) in
    let overlapRight := math_min globalRight (vright viewportRect) in
    let overlapTop := math_max globalTop (vtop viewportRect) in
    let overlapBottom := math_min globalBottom (vbottom viewportRect) in
    let overlapWidth := math_max 0 (overlapRight - overlapLeft) in
    let overlapHeight := math_max 0 (overlapBottom - overlapTop) in
    let visibleArea' :=
      if (0 <? overlapWidth) && (0 <? overlapHeight)
      then visibleArea acc + overlapWidth * overlapHeight
      else visibleArea acc in
    let verticalOverlap :=
      math_max 0 (math_min globalBottom (vbottom viewportRect)
                  - math_max globalTop (vtop viewportRect)) in
    if verticalOverlap <=? 0
    then mkAreas totalArea' visibleArea' (forwardArea acc) (backwardArea acc)
    else
      let forwardHiddenWidth :=
        if rtl
        then math_max 0 (math_min (width rect) (vleft viewportRect - globalLeft))
        else math_max 0 (math_min (width rect) (globalRight - vright viewportRect)) in
      let backwardHiddenWidth :=
        if rtl
        then math_max 0 (math_min (width rect) (globalRight - vright viewportRect))
        else math_max 0 (math_min (width rect) (vleft viewportRect - globalLeft)) in
      let forwardArea' :=
        if 0 <? forwardHiddenWidth
        then forwardArea acc + forwardHiddenWidth * verticalOverlap
        else forwardArea acc in
      let backwardArea' :=
        if 0 <? backwardHiddenWidth
        then backwardArea acc + backwardHiddenWidth * verticalOverlap
        else backwardArea acc in
      mkAreas totalArea' visibleArea' forwardArea' backwardArea'.

(** The whole loop, from the four accumulators at 0. *)
Definition measure (L : Layout) : Areas :=
  fold_left (accumulate (rtl L) (frameRect L) (viewportRect L)) (rects L)
            (mkAreas 0 0 0 0).

(** Lines 407-425: the thresholds. *)
Definition decide (rtl : bool) (m : Areas) : option SplitInfo :=
  if falsy (totalArea m) || falsy (visibleArea m) then None
  else
    let visibleRatio := visibleArea m / totalArea m in
    let forwardRatio := forwardArea m / totalArea m in
    let backwardRatio := backwardArea m / totalArea m in
    if 0.98 <=? visibleRatio then None
    else
      let progressionRatio := if rtl then backwardRatio else forwardRatio in
      let oppositeRatio := if rtl then forwardRatio else backwardRatio in
      if progressionRatio <? 0.1 then None
      else if progressionRatio <=? oppositeRatio then None
      else Some (mkSplitInfo visibleRatio progressionRatio).

(** Lines 327-355: the guards, the viewport and the direction. *)
Definition layout (el : option Element) (doc : option Document)
    (renderer : option Renderer) : option Layout :=
  match el, doc, renderer with
  | Some el, Some doc, Some renderer =>
    match defaultView doc with
    | None => None
    | Some defaultView =>
      if scrolled renderer then None
      else
        let rects :=
          List.filter (fun rect => (0 <? width rect) && (0 <? height rect))
                      (getClientRects el) in
        match rects with
        | [] => None
        | _ :: _ =>
          match frameElement defaultView, getBoundingClientRect renderer with
          | Some frameRect, Some rendererRect =>
            if falsy (width rendererRect) || falsy (height rendererRect) then None
            else
              let viewportRect := mkViewport
                (math_max (left rendererRect) (left frameRect))
                (math_min (right rendererRect) (right frameRect))
                (math_max (top rendererRect) (top frameRect))
                (math_min (bottom rendererRect) (bottom frameRect)) in
              if (vright viewportRect <=? vleft viewportRect)
                 || (vbottom viewportRect <=? vtop viewportRect) then None
              else
                let writingMode := default ""%string (writingMode defaultView) in
                if String.prefix "vertical" writingMode then None
                else
                  let rtl :=
                    match dir renderer with
                    | Some d => String.eqb d "rtl"
                    | None => false
                    end in
                  Some (mkLayout rects frameRect viewportRect rtl)
          | _, _ => None
          end
        end
    end
  | _, _, _ => None
  end.

Definition getElementSplitInfo (el : option Element) (doc : option Document)
    (renderer : option Renderer) : option SplitInfo :=
  match layout el doc renderer with
  | None => None
  | Some L => decide (rtl L) (measure L)
  end.

(** A narrated item: [begin] and [end], either of which may be nullish. *)
Record MediaItem : Type := mkItem {
  begin : option float;
  end_ : option float
}.

(** [x ?? 0] *)
Definition or_zero (x : option float) : float := default 0 x.

Definition duration (currentItem : MediaItem) : float :=
  or_zero (end_ currentItem) - or_zero (begin currentItem).

Definition earlyOffset : float := 1.0.

(** Lines 486-489. *)
Definition flipTime (currentItem : MediaItem) (splitInfo : SplitInfo) : float :=
  math_max (or_zero (begin currentItem))
           (or_zero (begin currentItem)
            + duration currentItem * visibleRatio splitInfo - earlyOffset).

(** Lines 475-504: the time at which a flip listener is armed, if one is. *)
Definition scheduledFlip (splitInfo : option SplitInfo) (atEnd : bool)
    (currentItem : MediaItem) : option float :=
  match splitInfo with
  | Some splitInfo =>
    if negb atEnd then
      if 0.5 <? duration currentItem then Some (flipTime currentItem splitInfo)
      else None
    else None
  | None => None
  end.

End Split.

(* ===================================================================== *)
(** ** Facts about split detection and flip timing *)
(* ===================================================================== *)

Module SplitFacts.
Import Split.

Local Open Scope float_scope.

(** C1. When detection is not skipped (the guards pass and give a layout)
    and the total and visible areas are nonzero, [getElementSplitInfo]
    returns null exactly when [visibleArea / totalArea >= 0.98], or
    [progressionRatio < 0.1], or [progressionRatio <= oppositeRatio];
    otherwise it returns [{ visibleRatio, offScreenRatio: progressionRatio }].
    [progressionRatio] is [forwardArea / totalArea], and [backwardArea /
    totalArea] under right-to-left direction; [oppositeRatio] is the other
    one. *)
Theorem split_decision (el : option Element) (doc : option Document)
    (renderer : option Renderer) (L : Layout) :
  layout el doc renderer = Some L →
  truthy_number (totalArea (measure L)) = true →
  truthy_number (visibleArea (measure L)) = true →
  let m := measure L in
  let visibleRatio := visibleArea m / totalArea m in
  let progressionRatio :=
    (if rtl L then backwardArea m else forwardArea m) / totalArea m in
  let oppositeRatio :=
    (if rtl L then forwardArea m else backwardArea m) / totalArea m in
  (getElementSplitInfo el doc renderer = None
   ↔ (0.98 <=? visibleRatio) = true
     ∨ (progressionRatio <? 0.1) = true
     ∨ (progressionRatio <=? oppositeRatio) = true)
  ∧ (getElementSplitInfo el doc renderer ≠ None →
     getElementSplitInfo el doc renderer
     = Some (mkSplitInfo visibleRatio progressionRatio)).
Proof.
  intros HL Ht Hv. cbv zeta.
  unfold getElementSplitInfo. rewrite HL. unfold decide, falsy.
  rewrite Ht, Hv. simpl.
  set (m := measure L). set (visibleRatio := visibleArea m / totalArea m).
  assert (Hp : (if rtl L then backwardArea m / totalArea m
                else forwardArea m / totalArea m)
               = (if rtl L then backwardArea m else forwardArea m) / totalArea m)
    by (by destruct (rtl L)).
  assert (Ho : (if rtl L then forwardArea m / totalArea m
                else backwardArea m / totalArea m)
               = (if rtl L then forwardArea m else backwardArea m) / totalArea m)
    by (by destruct (rtl L)).
  rewrite Hp, Ho. clear Hp Ho.
  set (progressionRatio := (if rtl L then backwardArea m else forwardArea m) / totalArea m).
  set (oppositeRatio := (if rtl L then forwardArea m else backwardArea m) / totalArea m).
  destruct (0.98 <=? visibleRatio) eqn:H98.
  { split; [split; auto|]. intros Hne. by destruct Hne. }
  destruct (progressionRatio <? 0.1) eqn:H10.
  { split; [split; auto|]. intros Hne. by destruct Hne. }
  destruct (progressionRatio <=? oppositeRatio) eqn:Hopp.
  { split; [split; auto|]. intros Hne. by destruct Hne. }
  split; [|done].
  split; [discriminate|]. intros [?|[?|?]]; discriminate.
Qed.

(** A page 300 wide and 400 high; the content frame starts at the page's
    left edge. *)
Definition page : Renderer :=
  mkRenderer false (Some (mkRect 0 300 0 400 300 400)) None false.

Definition page_rtl : Renderer :=
  mkRenderer false (Some (mkRect 0 300 0 400 300 400)) (Some "rtl"%string) false.

Definition content_doc : Document :=
  mkDocument (Some (mkWindow (Some (mkRect 0 3000 0 400 3000 400))
                             (Some "horizontal-tb"%string))).

(** A line 100 wide of which the last 70 lie past the right edge. *)
Definition overflowing_right : Element :=
  mkElement 1 [mkRect 270 370 100 120 100 20].

(** A line 100 wide that lies inside the page. *)
Definition inside : Element :=
  mkElement 2 [mkRect 100 200 100 120 100 20].

(** A line 400 wide that sticks out 50 on either side of the page. *)
Definition centred : Element :=
  mkElement 3 [mkRect (-50) 350 100 120 400 20].

Lemma split_decision_witness :
  getElementSplitInfo (Some overflowing_right) (Some content_doc) (Some page)
  = Some (mkSplitInfo (600 / 2000) (1400 / 2000)).
Proof.
  assert (HL : layout (Some overflowing_right) (Some content_doc) (Some page)
               = Some (mkLayout [mkRect 270 370 100 120 100 20]
                                (mkRect 0 3000 0 400 3000 400)
                                (mkViewport 0 300 0 400) false))
    by (vm_compute; reflexivity).
  destruct (split_decision _ _ _ _ HL) as [_ Hsome];
    [vm_compute; reflexivity | vm_compute; reflexivity |].
  rewrite Hsome; [vm_compute; reflexivity|].
  vm_compute. discriminate.
Defined.

(** The spec's sample cases. *)
Example split_70_percent_forward :
  getElementSplitInfo (Some overflowing_right) (Some content_doc) (Some page)
  = Some (mkSplitInfo 0.3 0.7).
Proof. vm_compute. reflexivity. Qed.

Example no_split_inside :
  getElementSplitInfo (Some inside) (Some content_doc) (Some page) = None.
Proof. vm_compute. reflexivity. Qed.

Example no_split_without_direction_preference :
  getElementSplitInfo (Some centred)
    (Some (mkDocument (Some (mkWindow (Some (mkRect (-100) 2900 0 400 3000 400))
                                      (Some "horizontal-tb"%string)))))
    (Some page) = None.
Proof. vm_compute. reflexivity. Qed.

(** *** Direction *)

(** The loop swaps the two hidden widths under right-to-left direction, and
    the thresholds swap the two ratios under right-to-left direction: the
    two swaps cancel, and the result does not depend on the direction. *)
Definition swapped (a b : Areas) : Prop :=
  totalArea a = totalArea b ∧ visibleArea a = visibleArea b
  ∧ forwardArea a = backwardArea b ∧ backwardArea a = forwardArea b.

Lemma accumulate_swapped (f : DOMRect) (v : ViewportRect) (a b : Areas) (r : DOMRect) :
  swapped a b → swapped (accumulate true f v a r) (accumulate false f v b r).
Proof.
  destruct a, b. intros (Ht & Hv & Hf & Hb). simpl in *. subst.
  unfold accumulate. simpl.
  repeat match goal with
         | |- context [if ?c then _ else _] => destruct c
         end; repeat split.
Qed.

Lemma fold_accumulate_swapped (f : DOMRect) (v : ViewportRect) (rs : list DOMRect) :
  ∀ a b, swapped a b →
    swapped (fold_left (accumulate true f v) rs a) (fold_left (accumulate false f v) rs b).
Proof.
  induction rs as [|r rs IH]; intros a b Hab; simpl; [done|].
  apply IH. by apply accumulate_swapped.
Qed.

Lemma decide_swapped (a b : Areas) : swapped a b → decide true a = decide false b.
Proof.
  destruct a, b. intros (Ht & Hv & Hf & Hb). simpl in *. subst. done.
Qed.

Lemma split_info_ignores_direction (L : Layout) :
  decide true (measure (mkLayout (rects L) (frameRect L) (viewportRect L) true))
  = decide false (measure (mkLayout (rects L) (frameRect L) (viewportRect L) false)).
Proof.
  apply decide_swapped. unfold measure. simpl.
  apply fold_accumulate_swapped. repeat split.
Qed.

Example right_overflow_splits_under_rtl :
  getElementSplitInfo (Some overflowing_right) (Some content_doc) (Some page_rtl)
  = Some (mkSplitInfo 0.3 0.7).
Proof. vm_compute. reflexivity. Qed.

End SplitFacts.

Module FlipFacts.
Import Split.

Local Open Scope float_scope.

(** *** Order on binary64 values *)

Lemma SFcompare_Lt_Gt (x y : spec_float) :
  SFcompare x y = Some Lt → SFcompare y x = Some Gt.
Proof.
  destruct x as [sx|sx| |sx mx ex], y as [sy|sy| |sy my ey]; simpl;
    try discriminate;
    try (destruct sx; try destruct sy; simpl; congruence).
  destruct sx, sy; simpl; try congruence;
    rewrite (Z.compare_antisym ex ey);
    (destruct (ex ?= ey)%Z eqn:He; simpl; try congruence);
    fold (Pos.compare mx my); fold (Pos.compare my mx);
    rewrite (Pos.compare_antisym mx my);
    destruct (mx ?= my)%positive; simpl; congruence.
Qed.

Lemma ltb_asym (x y : float) : (x <? y) = true → (y <? x) = false.
Proof.
  rewrite !ltb_spec. unfold SFltb.
  destruct (SFcompare (Prim2SF x) (Prim2SF y)) as [[| |]|] eqn:Hc; try discriminate.
  intros _. by rewrite (SFcompare_Lt_Gt _ _ Hc).
Qed.

Lemma ltb_irrefl (x : float) : (x <? x) = false.
Proof. destruct (x <? x) eqn:H; [|done]. by rewrite (ltb_asym _ _ H) in H. Qed.

Lemma ltb_nan_l (x : float) : (nan <? x) = false.
Proof. rewrite ltb_spec. done. Qed.

(** [Math.max(a, b)] is never below [a]. *)
Lemma math_max_not_below (a b : float) : (math_max a b <? a) = false.
Proof.
  unfold math_max.
  destruct (is_nan a || is_nan b); [apply ltb_nan_l|].
  destruct (a <? b) eqn:Hab; [by apply ltb_asym|].
  destruct (b <? a) eqn:Hba; [apply ltb_irrefl|].
  destruct (get_sign a); [done|apply ltb_irrefl].
Qed.

(** *** The flip time *)

(** The item of the source's own example: 2306.625 s to 2315.691 s, a
    quarter of the sentence visible. *)
Definition example_item : MediaItem := mkItem (Some 2306.625) (Some 2315.691).

Definition quarter_visible : SplitInfo := mkSplitInfo 0.25 0.75.

(** C2 (counterexample). For [begin = 2306.625], [end = 2315.691] and
    [visibleRatio = 0.25] the scheduled flip time is not 2308.89: it lies
    more than 0.99 s before it. *)
Lemma flip_time_example_is_not_2308_89 :
  scheduledFlip (Some quarter_visible) false example_item ≠ Some 2308.89
  ∧ (0.99 <? 2308.89 - flipTime example_item quarter_visible) = true.
Proof. split; [vm_compute; discriminate | vm_compute; reflexivity]. Qed.

(** C2 (amended). When a flip is scheduled (a split, not at the end, the
    duration above 0.5 s) it is at
    [max(begin, begin + (end - begin) * visibleRatio - 1.0)], which never
    precedes [begin]; for [begin = 2306.625], [end = 2315.691],
    [visibleRatio = 0.25] that is 2307.8915 s up to rounding (the binary64
    value 2307.8914999999997), which is not clamped. *)
Theorem flip_time_formula :
  (∀ (splitInfo : SplitInfo) (currentItem : MediaItem),
     let b := or_zero (begin currentItem) in
     let e := or_zero (end_ currentItem) in
     scheduledFlip (Some splitInfo) false currentItem
     = if 0.5 <? e - b
       then Some (math_max b (b + (e - b) * visibleRatio splitInfo - 1.0))
       else None)
  ∧ (∀ (splitInfo : SplitInfo) (currentItem : MediaItem),
       (flipTime currentItem splitInfo <? or_zero (begin currentItem)) = false)
  ∧ scheduledFlip (Some quarter_visible) false example_item
    = Some 2307.8914999999997
  ∧ (abs (flipTime example_item quarter_visible - 2307.8915) <? 1e-9) = true
  ∧ (2306.625 <? flipTime example_item quarter_visible) = true.
Proof.
  split; [|split; [|split; [|split]]].
  - intros splitInfo currentItem. reflexivity.
  - intros splitInfo currentItem. apply math_max_not_below.
  - vm_compute. reflexivity.
  - vm_compute. reflexivity.
  - vm_compute. reflexivity.
Qed.

(** A short sentence, mostly hidden: the early offset would put the flip
    before the sentence starts, so it is clamped to [begin]. *)
Example flip_time_clamped :
  scheduledFlip (Some (mkSplitInfo 0.1 0.9)) false (mkItem (Some 10) (Some 12))
  = Some 10.
Proof. vm_compute. reflexivity. Qed.

End FlipFacts.

(* ===================================================================== *)
(** ** [class View]: state, collaborators, location resolution *)
(* ===================================================================== *)

Module View.

Definition SEARCH_PREFIX : string := "foliate-search:".

(** What an anchor produces on a document: an element or a range, or
    nothing. *)
Definition Span : Type := option Split.Element.

(** [anchor]: a function awaiting the live document, or (from the
    section-progress tracker and [goToFractionInSection]) a plain number. *)
Inductive Anchor : Type :=
  | AnchorFunction (f : Split.Document -> Completion Span)
  | AnchorNumber (x : float).

(** A resolved target [{ index, anchor }]. *)
Record Resolved : Type := mkResolved {
  index : float;
  anchor : option Anchor
}.

(** How an overlay entry is drawn. *)
Inductive Draw : Type :=
  | Outline
  | Custom (style : string).

(** The argument [range] of [overlayer.add]. *)
Inductive RangeArg : Type :=
  | RangeOf (span : Span)
  | RangeAnchor (a : option Anchor).

(** Modelled from the spec: the class [Overlayer] of [overlayer.js], a
    drawing surface keyed by annotation values.  [add] replaces the entry
    of its key, [remove] deletes by key. *)
Abbreviation Overlayer := (gmap string (RangeArg * Draw)).

Definition overlayer_add (o : Overlayer) (value : string) (range : RangeArg)
    (draw : Draw) : Overlayer := <[value := (range, draw)]> o.

Definition overlayer_remove (o : Overlayer) (value : string) : Overlayer :=
  delete value o.

(** An entry of [renderer.getContents()]. *)
Record Content : Type := mkContent {
  c_index : float;
  doc : option Split.Document;
  overlayer : option Overlayer
}.

(** The renderer: the outcome of [goTo(resolved)] (a promise, rejected on
    [Throw]), the live contents, and the layout facts split detection reads. *)
Record Renderer : Type := mkRenderer {
  renderer_goTo : option Resolved -> Completion unit;
  getContents : list Content;
  box : Split.Renderer
}.

Record BookSection : Type := mkSection {
  cfi : option string;
  createDocument : option (Completion Split.Document)
}.

(** The book: its sections, [resolveHref], the optional [resolveCFI], and
    whether it has both [splitTOCHref] and [getTOCFragment]. *)
Record Book : Type := mkBook {
  sections : list BookSection;
  book_resolveHref : Value -> Completion (option Resolved);
  book_resolveCFI : option (Value -> Completion (option Resolved));
  hasTOCCapability : bool
}.

(** A parsed CFI: [parts], with its optional [parent]. *)
Record Parts : Type := mkParts {
  parent : option (list string);
  path : list string
}.

(** The functions used from [epubcfi.js]. *)
Record CFILib : Type := mkCFI {
  isCFI : Value -> bool;
  parse : Value -> Completion Parts;
  fake_toIndex : option string -> Completion float;
  fake_fromIndex : float -> string;
  toRange : Split.Document -> Parts -> Completion Span;
  fromRange : Split.Element -> string;
  joinIndir : string -> string -> string
}.

(** Modelled from the spec: the trackers of [progress.js].
    [getSection(fraction)] gives [[index, anchor]]; [getProgress(index)]
    gives a descriptor with an optional [label], or nothing. *)
Record SectionProgress : Type := mkSectionProgress {
  getSection : float -> Completion (float * option Anchor)
}.

Record TocItem : Type := mkTocItem {
  label : option string
}.

Record TOCProgress : Type := mkTOCProgress {
  getProgress : float -> option TocItem
}.

Record Annotation : Type := mkAnnotation {
  value : string
}.

(** [#searchResults]: a [Map] in insertion order, from the section index
    given to [search] ([None] when nullish) to that section's hits. *)
Abbreviation SearchResults := (list (option float * list Annotation)).

(** The narration source: whether it has an [audio] element, the item
    being narrated, and [autoScroll !== false]. *)
Record MediaOverlay : Type := mkMediaOverlay {
  audio : bool;
  activeItem : option Split.MediaItem;
  autoScroll : bool
}.

(** The fields of an opened [View]. *)
Record t : Type := mk {
  book : Book;
  CFI : CFILib;
  renderer : Renderer;
  sectionProgress : option SectionProgress;
  tocProgress : option TOCProgress;
  pageProgress : option TOCProgress;
  searchResults : SearchResults;
  history : History.t;
  mediaOverlay : option MediaOverlay;
  (** the shell's [draw-annotation] listener: the style it draws with, if
      it draws *)
  onDrawAnnotation : Annotation -> option Draw
}.

(** What an operation does besides changing the view. *)
Inductive Effect : Type :=
  | ConsoleError (e : JsError)
  | ConsoleMessage (msg : string) (target : Value)
  | Dispatched (ev : History.Event)
  | Emitted (name : string) (value : string)
  | UnhandledRejection (e : JsError).

Definition set_history (v : t) (h : History.t) : t :=
  mk (book v) (CFI v) (renderer v) (sectionProgress v) (tocProgress v)
     (pageProgress v) (searchResults v) h (mediaOverlay v) (onDrawAnnotation v).

Definition set_searchResults (v : t) (m : SearchResults) : t :=
  mk (book v) (CFI v) (renderer v) (sectionProgress v) (tocProgress v)
     (pageProgress v) m (history v) (mediaOverlay v) (onDrawAnnotation v).

Definition set_contents (v : t) (cs : list Content) : t :=
  mk (book v) (CFI v)
     (mkRenderer (renderer_goTo (renderer v)) cs (box (renderer v)))
     (sectionProgress v) (tocProgress v)
     (pageProgress v) (searchResults v) (history v) (mediaOverlay v)
     (onDrawAnnotation v).

(** [open(book)], as far as the fields go: the three trackers are built
    only for a book that has both [splitTOCHref] and [getTOCFragment]
    ([progress] is what their constructors give for this book), the
    history is the one made with the view, nothing is remembered of any
    search, and [media] is [book.getMediaOverlay()] when a section has a
    media overlay. *)
Definition open (book : Book) (CFI : CFILib) (renderer : Renderer)
    (progress : SectionProgress * TOCProgress * TOCProgress)
    (media : option MediaOverlay) (onDrawAnnotation : Annotation -> option Draw) : t :=
  if hasTOCCapability book
  then mk book CFI renderer (Some progress.1.1) (Some progress.1.2) (Some progress.2)
          [] History.new media onDrawAnnotation
  else mk book CFI renderer None None None [] History.new media onDrawAnnotation.

(** *** Location resolution *)

(** [(parts.parent ?? parts).shift()]: the first step, and what is left. *)
Definition shift (parts : Parts) : option string * Parts :=
  match parent parts with
  | Some p => (head p, mkParts (Some (tail p)) (path parts))
  | None => (head (path parts), mkParts None (tail (path parts)))
  end.

Definition resolveCFI (v : t) (cfi : Value) : Completion (option Resolved) :=
  match book_resolveCFI (book v) with
  | Some resolve => resolve cfi
  | None =>
    let! parts := parse (CFI v) cfi in
    let (first, parts) := shift parts in
    let! index := fake_toIndex (CFI v) first in
    let anchor := AnchorFunction (fun doc => toRange (CFI v) doc parts) in
    Normal (Some (mkResolved index (Some anchor)))
  end.

(** The body of the [try] in [resolveNavigation]. *)
Definition resolveNavigation_try (v : t) (target : Value)
    : Completion (option Resolved) :=
  match target with
  | VNumber n => Normal (Some (mkResolved n None))
  | _ =>
    let! fraction := get_fraction target in
    match fraction with
    | VNumber f =>
      match sectionProgress v with
      | None => Throw TypeError
      | Some progress =>
        let! r := getSection progress f in
        Normal (Some (mkResolved r.1 r.2))
      end
    | _ =>
      if isCFI (CFI v) target then resolveCFI v target
      else book_resolveHref (book v) target
    end
  end.

(** [resolveNavigation(target)]: the [catch] logs and falls through, so
    the call then gives [undefined]. *)
Definition resolveNavigation (v : t) (target : Value)
    : Completion (option Resolved) * list Effect :=
  match resolveNavigation_try v target with
  | Normal r => (Normal r, [])
  | Throw e =>
    (Normal None, [ConsoleError e; ConsoleMessage "Could not resolve target" target])
  end.

(** [async goTo(target)] *)
Definition goTo (v : t) (target : Value)
    : t * Completion (option Resolved) * list Effect :=
  match resolveNavigation v target with
  | (Throw e, eff) => (v, Throw e, eff)
  | (Normal resolved, eff) =>
    let caught e :=
      (v, Normal None,
       eff ++ [ConsoleError e; ConsoleMessage "Could not go to" target]) in
    match renderer_goTo (renderer v) resolved with
    | Throw e => caught e
    | Normal _ =>
      match History.pushState (history v) target with
      | Throw e => caught e
      | Normal (h, evs) =>
        (set_history v h, Normal resolved, eff ++ map Dispatched evs)
      end
    end
  end.

(** *** The overlay registry *)

(** What [addAnnotation] returns for an ordinary annotation. *)
Record Meta : Type := mkMeta {
  meta_index : float;
  meta_label : string
}.

(** [x.index === index && x.overlayer] *)
Definition live_at (index : float) (x : Content) : bool :=
  PrimFloat.eqb (c_index x) index
  && match overlayer x with Some _ => true | None => false end.

(** [#getOverlayer(index)]: the first such entry, with its position. *)
Definition getOverlayer (v : t) (index : float) : option (nat * Content) :=
  list_find (fun x => live_at index x = true) (getContents (renderer v)).

(** The overlayer found at [pos] is an object shared with the renderer:
    changing it shows in [getContents()]. *)
Definition set_overlayer (v : t) (pos : nat) (obj : Content) (o : Overlayer) : t :=
  set_contents v (<[pos := mkContent (c_index obj) (doc obj) (Some o)]>
                    (getContents (renderer v))).

(** [doc ? anchor(doc) : anchor] *)
Definition range_of (obj : Content) (anchor : option Anchor) : Completion RangeArg :=
  match doc obj with
  | Some d =>
    match anchor with
    | Some (AnchorFunction f) => let! span := f d in Normal (RangeOf span)
    | _ => Throw TypeError
    end
  | None => Normal (RangeAnchor anchor)
  end.

(** [value.replace(SEARCH_PREFIX, '')], for a value that starts with the
    prefix. *)
Definition strip_prefix (value : string) : string :=
  String.substring (String.length SEARCH_PREFIX)
                   (String.length value - String.length SEARCH_PREFIX) value.

(** [progress.getProgress(index)?.label ?? ''] *)
Definition label_of (progress : TOCProgress) (index : float) : string :=
  match getProgress progress index with
  | Some item => default ""%string (label item)
  | None => ""%string
  end.

(** [async addAnnotation(annotation, remove)] *)
Definition addAnnotation (v : t) (annotation : Annotation) (remove : bool)
    : t * Completion (option Meta) * list Effect :=
  let value := value annotation in
  if String.prefix SEARCH_PREFIX value then
    let cfi := strip_prefix value in
    match resolveNavigation v (VString cfi) with
    | (Throw e, eff) => (v, Throw e, eff)
    | (Normal None, eff) => (v, Throw TypeError, eff)
    | (Normal (Some r), eff) =>
      match getOverlayer v (index r) with
      | Some (pos, obj) =>
        let o := default ∅ (overlayer obj) in
        if remove
        then (set_overlayer v pos obj (overlayer_remove o value), Normal None, eff)
        else
          match range_of obj (anchor r) with
          | Throw e => (v, Throw e, eff)
          | Normal range =>
            (set_overlayer v pos obj (overlayer_add o value range Outline),
             Normal None, eff)
          end
      | None => (v, Normal None, eff)
      end
    end
  else
    match resolveNavigation v (VString value) with
    | (Throw e, eff) => (v, Throw e, eff)
    | (Normal None, eff) => (v, Throw TypeError, eff)
    | (Normal (Some r), eff) =>
      let drawn : t * Completion unit * list Effect :=
        match getOverlayer v (index r) with
        | Some (pos, obj) =>
          let o := overlayer_remove (default ∅ (overlayer obj)) value in
          if remove then (set_overlayer v pos obj o, Normal tt, [])
          else
            match range_of obj (anchor r) with
            | Throw e => (set_overlayer v pos obj o, Throw e, [])
            | Normal range =>
              let o' :=
                match onDrawAnnotation v annotation with
                | Some draw => overlayer_add o value range draw
                | None => o
                end in
              (set_overlayer v pos obj o', Normal tt, [Emitted "draw-annotation" value])
            end
        | None => (v, Normal tt, [])
        end in
      match drawn with
      | (v', Throw e, eff') => (v', Throw e, eff ++ eff')
      | (v', Normal _, eff') =>
        match tocProgress v' with
        | None => (v', Throw TypeError, eff ++ eff')
        | Some progress =>
          (v', Normal (Some (mkMeta (index r) (label_of progress (index r)))),
           eff ++ eff')
        end
      end
    end.

Definition deleteAnnotation (v : t) (annotation : Annotation)
    : t * Completion (option Meta) * list Effect :=
  addAnnotation v annotation true.

(** A call whose promise nobody awaits: the view it leaves, and its
    effects, a rejection among them. *)
Definition detached (r : t * Completion (option Meta) * list Effect)
    : t * list Effect :=
  match r with
  | (v, Normal _, eff) => (v, eff)
  | (v, Throw e, eff) => (v, eff ++ [UnhandledRejection e])
  end.

(** [for (const item of list) this.addAnnotation(item, remove)], the
    calls taken in call order. *)
Definition annotate_all (remove : bool) (v : t) (items : list Annotation)
    : t * list Effect :=
  fold_left (fun acc item =>
               let '(v', eff') := detached (addAnnotation acc.1 item remove) in
               (v', acc.2 ++ eff'))
            items (v, []).

(** [clearSearch()].  The [deleteAnnotation] calls are not awaited; they
    are taken in call order, each run to its end. *)
Definition clearSearch (v : t) : t * list Effect :=
  let '(v', eff) := annotate_all true v (concat (map snd (searchResults v))) in
  (set_searchResults v' [], eff).

(** [close()].  The renderer is destroyed and removed; it stays the value
    of [this.renderer]. *)
Definition close (v : t) : t :=
  mk (book v) (CFI v) (renderer v) None None None [] (History.clear (history v))
     None (onDrawAnnotation v).

(** [n] as a number. *)
Definition number_of_nat (n : nat) : float :=
  PrimFloat.of_uint63 (Uint63.of_Z (Z.of_nat n)).

(** *** Search *)

(** What the matcher of [search.js] finds in a document. *)
Record Match : Type := mkMatch {
  range : Split.Element;
  excerpt : string
}.

(** The options of [search], and the matcher that [searchMatcher] builds
    from them. *)
Record SearchOptions : Type := mkOptions {
  query : string;
  section : option float;
  matcher : Split.Document -> list Match
}.

Record Hit : Type := mkHit {
  hit_cfi : string;
  hit_excerpt : string
}.

(** What [#searchSection] and [#searchBook] yield. *)
Inductive IterResult : Type :=
  | Found (hit : Hit)
  | Progress (progress : float)
  | SectionHits (index : float) (subitems : list Hit).

(** What [search] yields. *)
Inductive Yielded : Type :=
  | Passed (result : IterResult)
  | Labelled (label : string) (subitems : list Hit)
  | Done.

(** [l[index]], from position [k] on. *)
Fixpoint item_at {A : Type} (l : list A) (k : nat) (index : float) : option A :=
  match l with
  | [] => None
  | x :: l' =>
    if PrimFloat.eqb index (number_of_nat k) then Some x
    else item_at l' (S k) index
  end.

(** [getCFI(index, range)] *)
Definition getCFI (v : t) (index : float) (range : Span) : Completion string :=
  match item_at (sections (book v)) 0 index with
  | None => Throw TypeError
  | Some s =>
    let baseCFI := default (fake_fromIndex (CFI v) index) (cfi s) in
    match range with
    | None => Normal baseCFI
    | Some r => Normal (joinIndir (CFI v) baseCFI (fromRange (CFI v) r))
    end
  end.

(** The hits of one document, up to the first failure. *)
Fixpoint hits_of (v : t) (index : float) (ms : list Match)
    : list Hit * option JsError :=
  match ms with
  | [] => ([], None)
  | m :: ms' =>
    match getCFI v index (Some (range m)) with
    | Throw e => ([], Some e)
    | Normal c =>
      let (hs, err) := hits_of v index ms' in
      (mkHit c (excerpt m) :: hs, err)
    end
  end.

(** [#searchSection(matcher, query, index)]: what it yields, and the error
    that ends it, if one does. *)
Definition searchSection (v : t) (opts : SearchOptions) (index : float)
    : list IterResult * option JsError :=
  match item_at (sections (book v)) 0 index with
  | None => ([], Some TypeError)
  | Some s =>
    match createDocument s with
    | None => ([], Some TypeError)
    | Some (Throw e) => ([], Some e)
    | Some (Normal d) =>
      let (hs, err) := hits_of v index (matcher opts d) in
      (map Found hs, err)
    end
  end.

(** [#searchBook(matcher, query)], from section [k] on. *)
Fixpoint searchBook_from (v : t) (opts : SearchOptions) (k : nat)
    (ss : list BookSection) : list IterResult * option JsError :=
  match ss with
  | [] => ([], None)
  | s :: ss' =>
    match createDocument s with
    | None => searchBook_from v opts (S k) ss'
    | Some (Throw e) => ([], Some e)
    | Some (Normal d) =>
      match hits_of v (number_of_nat k) (matcher opts d) with
      | (_, Some e) => ([], Some e)
      | (subitems, None) =>
        let progress :=
          PrimFloat.div (PrimFloat.add (number_of_nat k) 1)
                        (number_of_nat (length (sections (book v)))) in
        let here :=
          Progress progress ::
          match subitems with
          | [] => []
          | _ :: _ => [SectionHits (number_of_nat k) subitems]
          end in
        let (rest, err) := searchBook_from v opts (S k) ss' in
        (here ++ rest, err)
      end
    end
  end.

Definition searchBook (v : t) (opts : SearchOptions)
    : list IterResult * option JsError :=
  searchBook_from v opts 0 (sections (book v)).

(** Keys of a [Map] are compared by SameValueZero. *)
Definition same_key (a b : option float) : bool :=
  match a, b with
  | None, None => true
  | Some x, Some y =>
    PrimFloat.eqb x y || (PrimFloat.is_nan x && PrimFloat.is_nan y)
  | _, _ => false
  end.

(** [map.set(key, list)] *)
Definition map_set (m : SearchResults) (key : option float) (l : list Annotation)
    : SearchResults :=
  if existsb (fun e => same_key key e.1) m
  then map (fun e => if same_key key e.1 then (e.1, l) else e) m
  else m ++ [(key, l)].

(** The loop of [search] between two yields.  [list] is the array made
    before the loop; it is the very array stored under the search's own
    key for as long as [aliased] holds, that is until a [set] under the
    same key replaces it. *)
Record Loop : Type := mkLoop {
  view : t;
  list_ : list Annotation;
  aliased : bool
}.

Definition search_step (key : option float) (st : Loop) (result : IterResult)
    : Loop * Completion Yielded * list Effect :=
  match result with
  | SectionHits index subitems =>
    let list :=
      map (fun h => mkAnnotation (SEARCH_PREFIX ++ hit_cfi h)) subitems in
    let v1 := set_searchResults (view st)
                (map_set (searchResults (view st)) (Some index) list) in
    let '(v2, eff) := annotate_all false v1 list in
    let st' := mkLoop v2 (list_ st) (aliased st && negb (same_key (Some index) key)) in
    match tocProgress v2 with
    | None => (st', Throw TypeError, eff)
    | Some progress => (st', Normal (Labelled (label_of progress index) subitems), eff)
    end
  | Found hit =>
    if String.eqb (hit_cfi hit) "" then (st, Normal (Passed result), [])
    else
      let item := mkAnnotation (SEARCH_PREFIX ++ hit_cfi hit) in
      let list := list_ st ++ [item] in
      let v1 :=
        if aliased st
        then set_searchResults (view st) (map_set (searchResults (view st)) key list)
        else view st in
      let '(v2, eff) := detached (addAnnotation v1 item false) in
      (mkLoop v2 list (aliased st), Normal (Passed result), eff)
  | Progress _ => (st, Normal (Passed result), [])
  end.

(** The loop over the results the consumer pulls, up to the first throw. *)
Fixpoint search_loop (key : option float) (st : Loop) (results : list IterResult)
    : Loop * Completion (list Yielded) * list Effect :=
  match results with
  | [] => (st, Normal [], [])
  | result :: rest =>
    match search_step key st result with
    | (st', Throw e, eff) => (st', Throw e, eff)
    | (st', Normal y, eff) =>
      match search_loop key st' rest with
      | (st'', Throw e, eff') => (st'', Throw e, eff ++ eff')
      | (st'', Normal ys, eff') => (st'', Normal (y :: ys), eff ++ eff')
      end
    end
  end.

(** [search(opts)], pulled [pulls] times by its consumer: the view it
    leaves, what it yielded (or the error of the last pull), its effects.
    Nothing runs before the first pull. *)
Definition search (v : t) (opts : SearchOptions) (pulls : nat)
    : t * Completion (list Yielded) * list Effect :=
  match pulls with
  | O => (v, Normal [], [])
  | S _ =>
    let '(v1, eff1) := clearSearch v in
    let key := section opts in
    let '(results, err) :=
      match key with
      | Some index => searchSection v1 opts index
      | None => searchBook v1 opts
      end in
    let v2 := set_searchResults v1 (map_set (searchResults v1) key []) in
    match search_loop key (mkLoop v2 [] true) (take pulls results) with
    | (st, Throw e, eff2) => (view st, Throw e, eff1 ++ eff2)
    | (st, Normal ys, eff2) =>
      if (pulls <=? length results)%nat then (view st, Normal ys, eff1 ++ eff2)
      else
        match err with
        | Some e => (view st, Throw e, eff1 ++ eff2)
        | None => (view st, Normal (ys ++ [Done]), eff1 ++ eff2)
        end
    end
  end.

(** [n] is one of [0 .. sections.length - 1]. *)
Definition valid_section_index (b : Book) (n : float) : bool :=
  existsb (fun k => PrimFloat.eqb n (number_of_nat k)) (seq 0 (length (sections b))).

End View.

(* ===================================================================== *)
(** ** Facts about location resolution and [goTo] *)
(* ===================================================================== *)

Module NavigationFacts.
Import View.

(** A book of three sections without CFI resolver or TOC capability, shown
    by a renderer whose navigation succeeds. *)
Definition three_sections : Book :=
  mkBook [mkSection None None; mkSection None None; mkSection None None]
         (fun _ => Throw (External "no such href")) None false.

Definition plain_cfi : CFILib :=
  mkCFI (fun target => match target with
                       | VString s => String.prefix "epubcfi(" s
                       | _ => false
                       end)
        (fun _ => Throw (External "cannot parse"))
        (fun _ => Throw (External "not a fake CFI"))
        (fun _ => "epubcfi(/6/2)"%string)
        (fun _ _ => Normal None)
        (fun _ => ""%string)
        (fun a b => (a ++ b)%string).

Definition paginated : Split.Renderer :=
  Split.mkRenderer false (Some (Split.mkRect 0 300 0 400 300 400)) None false.

Definition sample_view : t :=
  mk three_sections plain_cfi
     (mkRenderer (fun _ => Normal tt) [] paginated)
     None None None [] History.new None (fun _ => None).

(** The same view over a renderer that rejects every navigation. *)
Definition rejecting_view : t :=
  mk three_sections plain_cfi
     (mkRenderer (fun _ => Throw (External "cannot display")) [] paginated)
     None None None [] HistoryFacts.sample None (fun _ => None).

(** [resolveNavigation] never throws. *)
Lemma resolveNavigation_returns (v : t) (target : Value) :
  ∃ r, (resolveNavigation v target).1 = Normal r.
Proof.
  unfold resolveNavigation.
  destruct (resolveNavigation_try v target) as [r|e]; simpl; eauto.
Qed.

(** C4 (counterexample). 7 is not a section index of a book of three
    sections, yet [resolveNavigation(7)] is not unresolved: it is
    [{ index: 7 }]. *)
Lemma resolveNavigation_invalid_index_resolves :
  valid_section_index (book sample_view) 7 = false
  ∧ (resolveNavigation sample_view (VNumber 7)).1 ≠ Normal None
  ∧ (resolveNavigation sample_view (VNumber 7)).1 = Normal (Some (mkResolved 7 None)).
Proof. split; [vm_compute; reflexivity|]. split; [discriminate|reflexivity]. Qed.

(** C4 (amended). For every number [n], valid section index or not,
    [resolveNavigation(n)] returns [{ index: n }] with no anchor and logs
    nothing; and for every target [resolveNavigation] returns without
    throwing. *)
Theorem resolveNavigation_number :
  (∀ (v : t) (n : float),
     resolveNavigation v (VNumber n) = (Normal (Some (mkResolved n None)), []))
  ∧ (∀ (v : t) (target : Value), ∃ r, (resolveNavigation v target).1 = Normal r).
Proof. split; [reflexivity|]. apply resolveNavigation_returns. Qed.

(** The settlement of [await this.renderer.goTo(resolved)] inside [goTo]. *)
Definition navigation (v : t) (target : Value) : Completion unit :=
  match (resolveNavigation v target).1 with
  | Normal resolved => renderer_goTo (renderer v) resolved
  | Throw e => Throw e
  end.

(** [goTo] pushes on the history only after the navigation has settled
    successfully. *)
Lemma goTo_history_changed (v : t) (target : Value) :
  history (goTo v target).1.1 ≠ history v → navigation v target = Normal tt.
Proof.
  unfold goTo, navigation.
  destruct (resolveNavigation v target) as [[resolved|e] eff]; simpl; [|done].
  destruct (renderer_goTo (renderer v) resolved) as [[]|e]; simpl; done.
Qed.

(** C6. If the renderer's [goTo] rejects, [View.goTo] leaves the view, and
    with it the history's array and pointer, as it was, and completes
    without an exception, giving [undefined]; a history that did change
    means the navigation settled successfully. *)
Theorem goTo_rejected (v : t) (target : Value) (e : JsError) :
  navigation v target = Throw e →
  (goTo v target).1.1 = v
  ∧ history (goTo v target).1.1 = history v
  ∧ (goTo v target).1.2 = Normal None
  ∧ (∀ v' target', history (goTo v' target').1.1 ≠ history v' →
       navigation v' target' = Normal tt).
Proof.
  intros Hnav.
  assert (H : (goTo v target).1.1 = v ∧ (goTo v target).1.2 = Normal None).
  { revert Hnav. unfold goTo, navigation.
    destruct (resolveNavigation v target) as [[resolved|e'] eff] eqn:Hres; simpl.
    - intros ->. done.
    - destruct (resolveNavigation_returns v target) as [r Hr].
      rewrite Hres in Hr. discriminate. }
  destruct H as [Hv Hr]. repeat split; try done.
  - by rewrite Hv.
  - apply goTo_history_changed.
Qed.

Lemma goTo_rejected_witness :
  navigation rejecting_view (VNumber 2) = Throw (External "cannot display")
  ∧ history (goTo rejecting_view (VNumber 2)).1.1 = HistoryFacts.sample
  ∧ (goTo rejecting_view (VNumber 2)).1.2 = Normal None.
Proof.
  assert (Hnav : navigation rejecting_view (VNumber 2)
                 = Throw (External "cannot display")) by reflexivity.
  split; [exact Hnav|].
  destruct (goTo_rejected _ _ _ Hnav) as (_ & Hh & Hr & _).
  split; [exact Hh | exact Hr].
Defined.

(** On the succeeding renderer the same call does push. *)
Example goTo_resolved_pushes :
  history (goTo sample_view (VNumber 1)).1.1
  = History.mk (mkArray [VNumber 1] ∅) 0.
Proof. reflexivity. Qed.

End NavigationFacts.

(* ===================================================================== *)
(** ** Facts about [addAnnotation] *)
(* ===================================================================== *)

Module AnnotationFacts.
Import View.

(** A book whose links and CFIs all lead to its second section. *)
Definition linked_book (toc : bool) : Book :=
  mkBook [mkSection None None; mkSection None None; mkSection None None]
         (fun _ => Normal (Some (mkResolved 1 None)))
         (Some (fun _ => Normal (Some (mkResolved 1 None))))
         toc.

Definition toc_labels : TOCProgress :=
  mkTOCProgress (fun _ => Some (mkTocItem (Some "Chapter 2"%string))).

Definition by_size : SectionProgress :=
  mkSectionProgress (fun _ => Normal (0%float, None)).

(** The view opened on a book, before any section is rendered:
    [getContents()] is empty. *)
Definition unrendered (b : Book) : t :=
  open b NavigationFacts.plain_cfi
       (mkRenderer (fun _ => Normal tt) [] NavigationFacts.paginated)
       (by_size, toc_labels, toc_labels) None (fun _ => Some (Custom "highlight")).







End AnnotationFacts.

(* ===================================================================== *)
(** ** Facts about the overlay registry and search *)
(* ===================================================================== *)

Module RegistryFacts.
Import View.

(** A value is search-tagged when it starts with the reserved prefix. *)
Definition is_search (k : string) : bool := String.prefix SEARCH_PREFIX k.

(** The overlay entry drawn under [k] in the content at [pos], if any. *)
Definition entry_in (cs : list Content) (pos : nat) (k : string)
    : option (RangeArg * Draw) :=
  c ← cs !! pos; o ← overlayer c; o !! k.

Definition entry (v : t) (pos : nat) (k : string) : option (RangeArg * Draw) :=
  entry_in (getContents (renderer v)) pos k.

(** [k] is among the hits that [#searchResults] remembers. *)
Definition registered (v : t) (k : string) : Prop :=
  ∃ key l, (key, l) ∈ searchResults v ∧ mkAnnotation k ∈ l.

(** The registry as [search] and [#createOverlayer] keep it: the remembered
    hits are search-tagged, and a search-tagged entry of a live overlay is
    a remembered hit, drawn on the overlay that its address leads to. *)
Definition tracked (v : t) : Prop :=
  (∀ key l item, (key, l) ∈ searchResults v → item ∈ l →
     is_search (value item) = true)
  ∧ (∀ pos k, is_search k = true → is_Some (entry v pos k) →
       registered v k
       ∧ ∃ r eff c,
           resolveNavigation v (VString (strip_prefix k)) = (Normal (Some r), eff)
           ∧ getOverlayer v (index r) = Some (pos, c)).

(** The view [v] with other contents and other search results. *)
Definition with_registry (v : t) (cs : list Content) (m : SearchResults) : t :=
  set_searchResults (set_contents v cs) m.

Lemma with_registry_self (v : t) :
  with_registry v (getContents (renderer v)) (searchResults v) = v.
Proof. destruct v as [? ? [? ? ?] ? ? ? ? ? ? ?]. reflexivity. Qed.

(** What [addAnnotation] does to the contents for a search-tagged value. *)
Definition search_touch (v : t) (remove : bool) (k : string) (cs : list Content)
    : list Content :=
  match (resolveNavigation v (VString (strip_prefix k))).1 with
  | Normal (Some r) =>
    match list_find (fun x => live_at (index r) x = true) cs with
    | Some (pos, obj) =>
      let o := default ∅ (overlayer obj) in
      if remove
      then <[pos := mkContent (c_index obj) (doc obj) (Some (overlayer_remove o k))]> cs
      else
        match range_of obj (anchor r) with
        | Throw _ => cs
        | Normal range =>
          <[pos := mkContent (c_index obj) (doc obj)
                             (Some (overlayer_add o k range Outline))]> cs
        end
    | None => cs
    end
  | _ => cs
  end.

Lemma addAnnotation_search_view (v : t) (cs : list Content) (m : SearchResults)
    (item : Annotation) (remove : bool) :
  is_search (value item) = true →
  (addAnnotation (with_registry v cs m) item remove).1.1
  = with_registry v (search_touch v remove (value item) cs) m.
Proof.
  unfold is_search. intros Hp. unfold addAnnotation, search_touch. rewrite Hp.
  change (resolveNavigation (with_registry v cs m) (VString (strip_prefix (value item))))
    with (resolveNavigation v (VString (strip_prefix (value item)))).
  destruct (resolveNavigation v (VString (strip_prefix (value item))))
    as [[[r|]|e] eff]; simpl; try reflexivity.
  unfold getOverlayer. simpl.
  destruct (list_find _ cs) as [[pos obj]|]; simpl; [|reflexivity].
  destruct remove; simpl; [reflexivity|].
  destruct (range_of obj (anchor r)); reflexivity.
Qed.

Lemma annotate_all_search (v : t) (m : SearchResults) (remove : bool)
    (items : list Annotation) :
  Forall (fun item => is_search (value item) = true) items →
  ∀ cs eff,
    (fold_left (fun acc item =>
                  let '(v', eff') := detached (addAnnotation acc.1 item remove) in
                  (v', acc.2 ++ eff'))
               items (with_registry v cs m, eff)).1
    = with_registry v
        (fold_left (fun cs item => search_touch v remove (value item) cs) items cs) m.
Proof.
  induction 1 as [|item items Hitem _ IH]; intros cs eff; simpl; [reflexivity|].
  pose proof (addAnnotation_search_view v cs m item remove Hitem) as Hview.
  destruct (addAnnotation (with_registry v cs m) item remove) as [[v' c] eff'].
  simpl in Hview. subst v'.
  destruct c; simpl; apply IH.
Qed.

(** *** How the contents may change *)

(** The entry under [k] of a content. *)
Definition entry_of (c : Content) (k : string) : option (RangeArg * Draw) :=
  o ← overlayer c; o !! k.

(** A content after some annotation calls on search-tagged values: the
    same section, document and overlay; every ordinary entry as it was;
    and no new entry but under a key in [K]. *)
Definition content_evolves (K : string → Prop) (c c' : Content) : Prop :=
  c_index c' = c_index c
  ∧ doc c' = doc c
  ∧ (is_Some (overlayer c') ↔ is_Some (overlayer c))
  ∧ (∀ k, is_search k = false → entry_of c' k = entry_of c k)
  ∧ (∀ k, is_Some (entry_of c' k) → is_Some (entry_of c k) ∨ K k).

Definition evolves (K : string → Prop) : list Content → list Content → Prop :=
  Forall2 (content_evolves K).

Lemma content_evolves_refl (K : string → Prop) (c : Content) : content_evolves K c c.
Proof. repeat split; auto. Qed.

Lemma evolves_refl (K : string → Prop) (cs : list Content) : evolves K cs cs.
Proof. induction cs; constructor; auto using content_evolves_refl. Qed.

Lemma content_evolves_trans (K : string → Prop) (a b c : Content) :
  content_evolves K a b → content_evolves K b c → content_evolves K a c.
Proof.
  intros (Hi & Hd & Ho & Hp & Hn) (Hi' & Hd' & Ho' & Hp' & Hn').
  repeat split.
  - congruence.
  - congruence.
  - intros H. by apply Ho, Ho'.
  - intros H. by apply Ho', Ho.
  - intros k Hk. rewrite Hp', Hp by done. done.
  - intros k Hk. destruct (Hn' k Hk) as [Hb|?]; [|by right]. by apply Hn.
Qed.

Lemma evolves_trans (K : string → Prop) (a b c : list Content) :
  evolves K a b → evolves K b c → evolves K a c.
Proof.
  unfold evolves. intros Hab. revert c.
  induction Hab as [|x y l k Hxy _ IH]; intros c Hbc; inversion Hbc; subst;
    constructor; eauto using content_evolves_trans.
Qed.

Lemma content_evolves_mono (K K' : string → Prop) (c c' : Content) :
  (∀ k, K k → K' k) → content_evolves K c c' → content_evolves K' c c'.
Proof.
  intros HK (Hi & Hd & Ho & Hp & Hn). repeat split; try done; try apply Ho.
  intros k Hk. destruct (Hn k Hk); auto.
Qed.

Lemma evolves_mono (K K' : string → Prop) (cs cs' : list Content) :
  (∀ k, K k → K' k) → evolves K cs cs' → evolves K' cs cs'.
Proof.
  intros HK H. eapply Forall2_impl; [exact H|].
  intros c c'. by apply content_evolves_mono.
Qed.

Lemma content_evolves_live (K : string → Prop) (c c' : Content) (i : float) :
  content_evolves K c c' → live_at i c' = live_at i c.
Proof.
  intros (Hi & _ & Ho & _). unfold live_at. rewrite Hi. f_equal.
  destruct (overlayer c) as [o|], (overlayer c') as [o'|]; try done.
  - destruct Ho as [_ Ho]. destruct Ho as [? Ho]; [by exists o|done].
  - destruct Ho as [Ho _]. destruct Ho as [? Ho]; [by exists o'|done].
Qed.

(** [#getOverlayer] finds its overlay at the same position afterwards. *)
Lemma evolves_find (K : string → Prop) (cs cs' : list Content) (i : float)
    (pos : nat) (c : Content) :
  evolves K cs cs' →
  list_find (fun x => live_at i x = true) cs = Some (pos, c) →
  ∃ c', list_find (fun x => live_at i x = true) cs' = Some (pos, c')
        ∧ content_evolves K c c'.
Proof.
  intros Hev Hfind. apply list_find_Some in Hfind as (Hpos & Hlive & Hbefore).
  destruct (Forall2_lookup_l _ _ _ _ _ Hev Hpos) as (c' & Hpos' & Hcc').
  exists c'. split; [|done].
  apply list_find_Some. split; [done|]. split.
  - by rewrite (content_evolves_live K c c' i Hcc').
  - intros j y' Hj Hlt.
    destruct (Forall2_lookup_r _ _ _ _ _ Hev Hj) as (y & Hy & Hyy').
    rewrite (content_evolves_live K y y' i Hyy'). by apply (Hbefore j).
Qed.

Lemma entry_in_evolves (K : string → Prop) (cs cs' : list Content) (pos : nat)
    (k : string) :
  evolves K cs cs' →
  (is_search k = false → entry_in cs' pos k = entry_in cs pos k)
  ∧ (is_Some (entry_in cs' pos k) → is_Some (entry_in cs pos k) ∨ K k).
Proof.
  intros Hev. unfold entry_in.
  destruct (cs' !! pos) as [c'|] eqn:Hpos'; simpl.
  - destruct (Forall2_lookup_r _ _ _ _ _ Hev Hpos') as (c & Hpos & Hcc').
    rewrite Hpos. simpl. destruct Hcc' as (_ & _ & _ & Hp & Hn).
    split; [apply Hp | apply Hn].
  - assert (cs !! pos = None) as ->.
    { apply lookup_ge_None. apply lookup_ge_None in Hpos'.
      by rewrite (Forall2_length _ _ _ Hev). }
    simpl. split; [done|]. intros [? ?]. done.
Qed.

Lemma evolves_insert (K : string → Prop) (cs : list Content) (pos : nat)
    (c c' : Content) :
  cs !! pos = Some c → content_evolves K c c' → evolves K cs (<[pos := c']> cs).
Proof.
  intros Hpos Hcc'. unfold evolves.
  rewrite <- (list_insert_id cs pos c) at 1 by done.
  apply Forall2_insert; [apply evolves_refl | done].
Qed.

Lemma is_search_neq (k k' : string) :
  is_search k = true → is_search k' = false → k ≠ k'.
Proof. intros H H' ->. congruence. Qed.

(** One annotation call on a search-tagged value [k]: ordinary entries are
    left alone, and the only entry that can appear is the one under [k], on
    an add. *)
Lemma search_touch_evolves (v : t) (remove : bool) (k : string) (cs : list Content) :
  is_search k = true →
  evolves (fun k' => remove = false ∧ k' = k) cs (search_touch v remove k cs).
Proof.
  intros Hk. unfold search_touch.
  destruct (resolveNavigation v (VString (strip_prefix k))).1 as [[r|]|e];
    try apply evolves_refl.
  destruct (list_find _ cs) as [[pos obj]|] eqn:Hfind; [|apply evolves_refl].
  apply list_find_Some in Hfind as (Hpos & Hlive & _).
  unfold live_at in Hlive. apply andb_true_iff in Hlive as [_ Hlive].
  destruct (overlayer obj) as [o|] eqn:Ho; [|done]. simpl.
  destruct remove.
  - apply (evolves_insert _ _ _ obj); [done|].
    unfold content_evolves, entry_of, overlayer_remove. simpl. rewrite Ho. simpl.
    repeat split; eauto.
    + intros k' Hk'. apply lookup_delete_ne. by apply is_search_neq.
    + intros k' [x Hx]. left. exists x. simpl in Hx.
      destruct (decide (k = k')) as [->|Hne].
      * by rewrite lookup_delete_eq in Hx.
      * by rewrite lookup_delete_ne in Hx.
  - destruct (range_of obj (anchor r)) as [range|e]; [|apply evolves_refl].
    apply (evolves_insert _ _ _ obj); [done|].
    unfold content_evolves, entry_of, overlayer_add. simpl. rewrite Ho. simpl.
    repeat split; eauto.
    + intros k' Hk'. apply lookup_insert_ne. by apply is_search_neq.
    + intros k' Hx. destruct (decide (k = k')) as [->|Hne]; [by right|].
      left. simpl in Hx. by rewrite lookup_insert_ne in Hx.
Qed.

(** A removal takes the entry off the overlay that the address leads to. *)
Lemma search_touch_removes (v : t) (k : string) (cs : list Content)
    (r : Resolved) (eff : list Effect) (pos : nat) (c : Content) :
  resolveNavigation v (VString (strip_prefix k)) = (Normal (Some r), eff) →
  list_find (fun x => live_at (index r) x = true) cs = Some (pos, c) →
  entry_in (search_touch v true k cs) pos k = None.
Proof.
  intros Hres Hfind. unfold search_touch. rewrite Hres. simpl. rewrite Hfind.
  apply list_find_Some in Hfind as (Hpos & _).
  unfold entry_in. rewrite list_lookup_insert_eq by (by eapply lookup_lt_Some).
  simpl. unfold overlayer_remove. apply lookup_delete_eq.
Qed.

(** [for (const item of items) this.addAnnotation(item, remove)] on the
    contents, for search-tagged items. *)
Definition touch_all (v : t) (remove : bool) (items : list Annotation)
    (cs : list Content) : list Content :=
  fold_left (fun cs item => search_touch v remove (value item) cs) items cs.

Lemma touch_all_evolves (v : t) (remove : bool) (items : list Annotation) :
  Forall (fun item => is_search (value item) = true) items →
  ∀ cs, evolves (fun k => remove = false ∧ k ∈ map value items) cs
                (touch_all v remove items cs).
Proof.
  induction 1 as [|item items Hitem _ IH]; intros cs; simpl; [apply evolves_refl|].
  eapply evolves_trans.
  - eapply evolves_mono; [|by apply (search_touch_evolves v remove (value item))].
    simpl. intros k [? ->]. split; [done|]. apply elem_of_cons. by left.
  - eapply evolves_mono; [|apply IH].
    simpl. intros k [? ?]. split; [done|]. apply elem_of_cons. by right.
Qed.

Lemma untouch_all_evolves (v : t) (items : list Annotation) :
  Forall (fun item => is_search (value item) = true) items →
  ∀ cs, evolves (fun _ => False) cs (touch_all v true items cs).
Proof.
  intros Hitems cs. eapply evolves_mono; [|by apply touch_all_evolves].
  simpl. intros k [? _]. done.
Qed.

Lemma untouch_all_removes (v : t) (items : list Annotation) :
  Forall (fun item => is_search (value item) = true) items →
  ∀ cs item r eff pos c,
    item ∈ items →
    resolveNavigation v (VString (strip_prefix (value item))) = (Normal (Some r), eff) →
    list_find (fun x => live_at (index r) x = true) cs = Some (pos, c) →
    entry_in (touch_all v true items cs) pos (value item) = None.
Proof.
  induction 1 as [|item0 items Hitem0 Hitems IH];
    intros cs item r eff pos c Hin Hres Hfind; [by apply elem_of_nil in Hin|].
  simpl. apply elem_of_cons in Hin as [->|Hin].
  - pose proof (search_touch_removes v _ cs r eff pos c Hres Hfind) as Hnone.
    pose proof (untouch_all_evolves v items Hitems
                  (search_touch v true (value item0) cs)) as Hev.
    destruct (entry_in_evolves _ _ _ pos (value item0) Hev) as [_ Hnew].
    destruct (entry_in (touch_all v true items _) pos (value item0)) eqn:He; [|done].
    destruct Hnew as [[x Hx]|[]]; [eauto|]. congruence.
  - pose proof (search_touch_evolves v true (value item0) cs Hitem0) as Hev.
    destruct (evolves_find _ _ _ _ _ _ Hev Hfind) as (c' & Hfind' & _).
    by eapply IH.
Qed.

(** *** [clearSearch] *)

Lemma remembered_hits_tagged (v : t) :
  tracked v →
  Forall (fun item => is_search (value item) = true)
         (concat (map snd (searchResults v))).
Proof.
  intros [Htag _]. apply Forall_forall. intros item Hin.
  apply list_elem_of_In, in_concat in Hin as (l & Hl & Hitem).
  apply in_map_iff in Hl as ([key l'] & <- & Hkl).
  apply (Htag key l' item); by apply list_elem_of_In.
Qed.

Lemma clearSearch_view (v : t) (cs : list Content) (m : SearchResults) :
  Forall (fun item => is_search (value item) = true) (concat (map snd m)) →
  (clearSearch (with_registry v cs m)).1
  = with_registry v (touch_all v true (concat (map snd m)) cs) [].
Proof.
  intros Hitems. unfold clearSearch, annotate_all.
  pose proof (annotate_all_search v m true _ Hitems cs []) as Hfold.
  change (searchResults (with_registry v cs m)) with m.
  destruct (fold_left _ (concat (map snd m)) (with_registry v cs m, [])) as [v' eff].
  simpl in Hfold. subst v'. reflexivity.
Qed.

(** After [clearSearch] no live overlay holds a search-tagged entry, every
    ordinary entry is where it was, and nothing is remembered. *)
Lemma clearSearch_contents (v : t) :
  tracked v →
  ∃ cs,
    (clearSearch v).1 = with_registry v cs []
    ∧ evolves (fun _ => False) (getContents (renderer v)) cs
    ∧ (∀ pos k, is_search k = true → entry_in cs pos k = None).
Proof.
  intros Htracked.
  pose proof (remembered_hits_tagged v Htracked) as Hitems.
  exists (touch_all v true (concat (map snd (searchResults v))) (getContents (renderer v))).
  split; [|split].
  - rewrite <- (with_registry_self v) at 1. by apply clearSearch_view.
  - by apply untouch_all_evolves.
  - intros pos k Hk.
    destruct (entry_in _ pos k) as [x|] eqn:He; [|done]. exfalso.
    pose proof (untouch_all_evolves v _ Hitems (getContents (renderer v))) as Hev.
    destruct (entry_in_evolves _ _ _ pos k Hev) as [_ Hnew].
    destruct Hnew as [Hold|[]]; [by rewrite He|].
    destruct Htracked as [_ Hdrawn].
    destruct (Hdrawn pos k Hk Hold) as [(key & l & Hkl & Hitem) (r & eff & c & Hres & Hfind)].
    assert (Hin : mkAnnotation k ∈ concat (map snd (searchResults v))).
    { apply list_elem_of_In, in_concat. exists l. split; [|by apply list_elem_of_In].
      apply in_map_iff. exists (key, l). split; [done|by apply list_elem_of_In]. }
    pose proof (untouch_all_removes v _ Hitems (getContents (renderer v))
                  (mkAnnotation k) r eff pos c Hin Hres Hfind) as Hnone.
    simpl in Hnone. congruence.
Qed.

(** *** [search] *)

(** The values under which [search] registers the hits of its results. *)
Definition hit_value (h : Hit) : string := (SEARCH_PREFIX ++ hit_cfi h)%string.

Definition hit_values (results : list IterResult) : list string :=
  concat (map (fun result =>
                 match result with
                 | Found h => [hit_value h]
                 | SectionHits _ subitems => map hit_value subitems
                 | Progress _ => []
                 end) results).

(** What the inner generator of [search(opts)] yields. *)
Definition iter_results (v : t) (opts : SearchOptions) : list IterResult * option JsError :=
  match section opts with
  | Some index => searchSection v opts index
  | None => searchBook v opts
  end.

Lemma hits_of_with_registry (v : t) (cs : list Content) (m : SearchResults)
    (index : float) (ms : list Match) :
  hits_of (with_registry v cs m) index ms = hits_of v index ms.
Proof.
  induction ms as [|x ms IH]; simpl; [done|].
  change (getCFI (with_registry v cs m) index (Some (range x)))
    with (getCFI v index (Some (range x))).
  destruct (getCFI v index (Some (range x))); [|done]. by rewrite IH.
Qed.

Lemma searchBook_from_with_registry (v : t) (cs : list Content) (m : SearchResults)
    (opts : SearchOptions) (ss : list BookSection) :
  ∀ k, searchBook_from (with_registry v cs m) opts k ss = searchBook_from v opts k ss.
Proof.
  induction ss as [|s ss IH]; intros k; simpl; [done|].
  destruct (createDocument s) as [[d|e]|]; try done.
  rewrite hits_of_with_registry.
  destruct (hits_of v (number_of_nat k) (matcher opts d)) as [subitems [e|]]; [done|].
  by rewrite IH.
Qed.

Lemma iter_results_with_registry (v : t) (cs : list Content) (m : SearchResults)
    (opts : SearchOptions) :
  iter_results (with_registry v cs m) opts = iter_results v opts.
Proof.
  unfold iter_results. destruct (section opts) as [index|].
  - unfold searchSection.
    change (sections (book (with_registry v cs m))) with (sections (book v)).
    destruct (item_at (sections (book v)) 0 index) as [s|]; [|done].
    destruct (createDocument s) as [[d|e]|]; try done.
    by rewrite hits_of_with_registry.
  - apply searchBook_from_with_registry.
Qed.

Lemma hit_value_tagged (h : Hit) : is_search (hit_value h) = true.
Proof. unfold is_search, hit_value. simpl. by destruct (hit_cfi h). Qed.

Lemma search_step_view (key : option float) (v : t) (cs : list Content)
    (m : SearchResults) (l : list Annotation) (a : bool) (result : IterResult) :
  ∃ cs' m',
    view (search_step key (mkLoop (with_registry v cs m) l a) result).1.1
    = with_registry v cs' m'
    ∧ evolves (fun k => k ∈ hit_values [result]) cs cs'.
Proof.
  destruct result as [h|p|i subitems]; simpl.
  - destruct (String.eqb (hit_cfi h) ""); simpl.
    { exists cs, m. split; [done|apply evolves_refl]. }
    set (m1 := if a then map_set m key (l ++ [mkAnnotation (hit_value h)]) else m).
    assert (Hv1 : (if a
                   then set_searchResults (with_registry v cs m)
                          (map_set m key (l ++ [mkAnnotation (hit_value h)]))
                   else with_registry v cs m) = with_registry v cs m1)
      by (unfold m1; by destruct a).
    unfold hit_value in Hv1 |- *. rewrite Hv1.
    pose proof (addAnnotation_search_view v cs m1 (mkAnnotation (hit_value h)) false
                  (hit_value_tagged h)) as Hview.
    unfold hit_value in Hview.
    destruct (addAnnotation (with_registry v cs m1) _ false) as [[v' c] eff].
    simpl in Hview. subst v'.
    exists (search_touch v false (SEARCH_PREFIX ++ hit_cfi h) cs), m1.
    split; [by destruct c|].
    eapply evolves_mono; [|apply (search_touch_evolves v false (hit_value h));
                           apply hit_value_tagged].
    simpl. intros k [_ ->]. unfold hit_values. simpl. apply elem_of_cons. by left.
  - exists cs, m. split; [done|apply evolves_refl].
  - set (items := map (fun h => mkAnnotation (SEARCH_PREFIX ++ hit_cfi h)) subitems).
    assert (Hitems : Forall (fun item => is_search (value item) = true) items).
    { apply Forall_forall. intros item Hin. apply list_elem_of_fmap in Hin as (h & -> & _).
      apply hit_value_tagged. }
    set (m1 := map_set m (Some i) items).
    pose proof (annotate_all_search v m1 false items Hitems cs []) as Hfold.
    unfold annotate_all.
    change (set_searchResults (with_registry v cs m) m1)
      with (with_registry v cs m1).
    destruct (fold_left _ items (with_registry v cs m1, [])) as [v' eff].
    simpl in Hfold. subst v'.
    exists (touch_all v false items cs), m1.
    split; [simpl; by destruct (tocProgress v)|].
    eapply evolves_mono; [|by apply touch_all_evolves].
    simpl. intros k [_ Hk]. unfold hit_values. simpl. rewrite app_nil_r.
    unfold items in Hk. rewrite map_map in Hk. done.
Qed.

Lemma hit_values_cons (result : IterResult) (results : list IterResult) (k : string) :
  k ∈ hit_values (result :: results)
  ↔ k ∈ hit_values [result] ∨ k ∈ hit_values results.
Proof.
  unfold hit_values. simpl. rewrite app_nil_r. apply elem_of_app.
Qed.

Lemma search_loop_view (key : option float) (v : t) (results : list IterResult) :
  ∀ cs m l a,
  ∃ cs' m',
    view (search_loop key (mkLoop (with_registry v cs m) l a) results).1.1
    = with_registry v cs' m'
    ∧ evolves (fun k => k ∈ hit_values results) cs cs'.
Proof.
  induction results as [|result results IH]; intros cs m l a; simpl.
  { exists cs, m. split; [done|apply evolves_refl]. }
  destruct (search_step_view key v cs m l a result) as (cs1 & m1 & Hview & Hev).
  destruct (search_step key (mkLoop (with_registry v cs m) l a) result)
    as [[[v1 l1 a1] c] eff].
  simpl in Hview. subst v1.
  assert (Hev1 : evolves (fun k => k ∈ hit_values (result :: results)) cs cs1).
  { eapply evolves_mono; [|exact Hev]. intros k Hk. apply hit_values_cons. by left. }
  destruct c as [y|e]; [|by exists cs1, m1].
  destruct (IH cs1 m1 l1 a1) as (cs2 & m2 & Hview2 & Hev2).
  destruct (search_loop key (mkLoop (with_registry v cs1 m1) l1 a1) results)
    as [[st c] eff'].
  simpl in Hview2. exists cs2, m2.
  split; [by destruct c|].
  eapply evolves_trans; [exact Hev1|].
  eapply evolves_mono; [|exact Hev2]. intros k Hk. apply hit_values_cons. by right.
Qed.

(** A search that is pulled at least once: the contents it leaves come from
    the cleared contents by adding entries under this run's hits only. *)
Lemma search_contents (v : t) (opts : SearchOptions) (pulls : nat) :
  tracked v →
  ∃ cs1 cs' m',
    (search v opts (S pulls)).1.1 = with_registry v cs' m'
    ∧ evolves (fun _ => False) (getContents (renderer v)) cs1
    ∧ (∀ pos k, is_search k = true → entry_in cs1 pos k = None)
    ∧ evolves (fun k => k ∈ hit_values (take (S pulls) (iter_results v opts).1))
              cs1 cs'.
Proof.
  intros Htracked.
  destruct (clearSearch_contents v Htracked) as (cs1 & Hclear & Hev & Hnone).
  unfold search. destruct (clearSearch v) as [v1 eff1]. simpl in Hclear. subst v1.
  change (match section opts with
          | Some index => searchSection (with_registry v cs1 []) opts index
          | None => searchBook (with_registry v cs1 []) opts
          end) with (iter_results (with_registry v cs1 []) opts).
  rewrite iter_results_with_registry.
  destruct (iter_results v opts) as [results err]. simpl fst.
  set (m2 := map_set [] (section opts) []).
  change (set_searchResults (with_registry v cs1 []) m2) with (with_registry v cs1 m2).
  destruct (search_loop_view (section opts) v (take (S pulls) results) cs1 m2 [] true)
    as (cs' & m' & Hview & Hev').
  destruct (search_loop (section opts) (mkLoop (with_registry v cs1 m2) [] true)
              (take (S pulls) results)) as [[st c] eff2].
  simpl in Hview. exists cs1, cs', m'.
  split; [|done].
  destruct c as [ys|e]; [|done].
  repeat case_match; done.
Qed.

(** C8 (amended). On a tracked registry (every remembered hit is
    search-prefixed, and every search-tagged entry of a live overlay is a
    remembered hit drawn on the overlay its address leads to),
    [clearSearch] leaves no search-tagged entry on any live overlay and
    nothing remembered, and leaves every ordinary (not search-prefixed)
    entry as it was.  A [search] that has started does the same before it
    registers anything: every search-tagged entry it leaves is a hit of
    this very run, and the ordinary entries are as they were. *)
Theorem search_clears_search_entries (v : t) :
  tracked v →
  (searchResults (clearSearch v).1 = []
   ∧ (∀ pos k, is_search k = true → entry (clearSearch v).1 pos k = None)
   ∧ (∀ pos k, is_search k = false → entry (clearSearch v).1 pos k = entry v pos k))
  ∧ (∀ opts pulls,
       (∀ pos k, is_search k = true →
          is_Some (entry (search v opts (S pulls)).1.1 pos k) →
          k ∈ hit_values (take (S pulls) (iter_results v opts).1))
       ∧ (∀ pos k, is_search k = false →
            entry (search v opts (S pulls)).1.1 pos k = entry v pos k)).
Proof.
  intros Htracked. split.
  - destruct (clearSearch_contents v Htracked) as (cs1 & -> & Hev & Hnone).
    split; [done|]. unfold entry. simpl. split.
    + intros pos k Hk. by apply Hnone.
    + intros pos k Hk.
      destruct (entry_in_evolves _ _ _ pos k Hev) as [Hsame _]. exact (Hsame Hk).
  - intros opts pulls.
    destruct (search_contents v opts pulls Htracked)
      as (cs1 & cs' & m' & -> & Hev & Hnone & Hev').
    unfold entry. simpl. split.
    + intros pos k Hk Hsome.
      destruct (entry_in_evolves _ _ _ pos k Hev') as [_ Hnew].
      destruct (Hnew Hsome) as [Hold|?]; [|done].
      rewrite (Hnone pos k Hk) in Hold. by destruct Hold.
    + intros pos k Hk.
      destruct (entry_in_evolves _ _ _ pos k Hev') as [Hsame' _]. rewrite (Hsame' Hk).
      destruct (entry_in_evolves _ _ _ pos k Hev) as [Hsame _]. exact (Hsame Hk).
Qed.

(** A view showing the second section, on whose overlay a search hit and a
    reader's note are drawn; the hit is remembered under the section's
    index. *)
Definition drawn_overlay : gmap string (RangeArg * Draw) :=
  {[ "foliate-search:epubcfi(/6/4!/4/2)"%string := (RangeOf None, Outline);
     "chapter2.xhtml#note"%string := (RangeOf None, Custom "highlight") ]}.

Definition searched_view : t :=
  mk (AnnotationFacts.linked_book true) NavigationFacts.plain_cfi
     (mkRenderer (fun _ => Normal tt)
                 [mkContent 1 (Some SplitFacts.content_doc) (Some drawn_overlay)]
                 NavigationFacts.paginated)
     None (Some AnnotationFacts.toc_labels) (Some AnnotationFacts.toc_labels)
     [(Some 1%float, [mkAnnotation "foliate-search:epubcfi(/6/4!/4/2)"])]
     History.new None (fun _ => Some (Custom "highlight")).

Lemma searched_view_tracked : tracked searched_view.
Proof.
  split.
  - intros key l item Hkl Hitem. simpl in Hkl.
    apply list_elem_of_singleton in Hkl. injection Hkl as _ ->.
    apply list_elem_of_singleton in Hitem. subst item. reflexivity.
  - intros pos k Hk Hsome. unfold entry, entry_in in Hsome. simpl in Hsome.
    destruct pos as [|pos]; simpl in Hsome; [|by destruct Hsome].
    unfold drawn_overlay in Hsome.
    apply lookup_insert_is_Some in Hsome as [<-|[_ Hsome]].
    + split.
      * exists (Some 1%float), [mkAnnotation "foliate-search:epubcfi(/6/4!/4/2)"].
        split; apply list_elem_of_singleton; reflexivity.
      * exists (mkResolved 1 None), [],
          (mkContent 1 (Some SplitFacts.content_doc) (Some drawn_overlay)).
        split; [reflexivity|]. vm_compute. reflexivity.
    + apply lookup_singleton_is_Some in Hsome. subst k. discriminate.
Qed.

Lemma search_clears_search_entries_witness :
  tracked searched_view
  ∧ entry (clearSearch searched_view).1 0 "foliate-search:epubcfi(/6/4!/4/2)" = None
  ∧ entry (clearSearch searched_view).1 0 "chapter2.xhtml#note"
    = Some (RangeOf None, Custom "highlight").
Proof.
  split; [exact searched_view_tracked|].
  destruct (search_clears_search_entries searched_view searched_view_tracked)
    as [(_ & Hsearch & Hkept) _].
  split.
  - apply Hsearch. reflexivity.
  - rewrite Hkept by reflexivity. reflexivity.
Defined.

(** A view showing the second section, with a reader's note on its
    overlay and no search behind it. *)
Definition noted_view : t :=
  mk (mkBook [mkSection None None;
              mkSection None (Some (Normal SplitFacts.content_doc));
              mkSection None None]
             (fun _ => Normal (Some (mkResolved 1 None)))
             (Some (fun _ =>
                      Normal (Some (mkResolved 1
                                      (Some (AnchorFunction
                                               (fun _ => Normal (Some SplitFacts.inside))))))))
             true)
     NavigationFacts.plain_cfi
     (mkRenderer (fun _ => Normal tt)
                 [mkContent 1 (Some SplitFacts.content_doc)
                    (Some {[ "chapter2.xhtml#note"%string
                             := (RangeOf None, Custom "highlight") ]})]
                 NavigationFacts.paginated)
     None (Some AnnotationFacts.toc_labels) (Some AnnotationFacts.toc_labels)
     [] History.new None (fun _ => Some (Custom "highlight")).

(** C8 (counterexample). An application calls [addAnnotation] itself with
    a search-prefixed value: the entry is drawn and nothing is
    remembered in [#searchResults].  [clearSearch] then leaves the entry
    on the overlay, and so does a new [search], which runs to its end
    without a hit. *)
Lemma clearSearch_leaves_foreign_entry :
  let k := "foliate-search:epubcfi(/6/4!/4/2)"%string in
  let v := (addAnnotation noted_view (mkAnnotation k) false).1.1 in
  let opts := mkOptions "whale" (Some 1%float) (fun _ => []) in
  is_search k = true
  ∧ searchResults v = []
  ∧ entry v 0 k = Some (RangeOf (Some SplitFacts.inside), Outline)
  ∧ entry (clearSearch v).1 0 k = Some (RangeOf (Some SplitFacts.inside), Outline)
  ∧ (search v opts 1).1.2 = Normal [Done]
  ∧ entry (search v opts 1).1.1 0 k = Some (RangeOf (Some SplitFacts.inside), Outline).
Proof. repeat split; vm_compute; reflexivity. Qed.

(** The same, by running the code. *)
Example clearSearch_runs :
  getContents (renderer (clearSearch searched_view).1)
  = [mkContent 1 (Some SplitFacts.content_doc)
       (Some {[ "chapter2.xhtml#note"%string := (RangeOf None, Custom "highlight") ]})]
  ∧ searchResults (clearSearch searched_view).1 = [].
Proof. split; vm_compute; reflexivity. Qed.

(** *** The registry stays tracked *)








(** A registry with nothing remembered and no search-tagged entry drawn is
    tracked; so is the registry that [clearSearch] leaves. *)
Lemma tracked_without_hits (v : t) :
  searchResults v = [] →
  (∀ pos k, is_search k = true → entry v pos k = None) →
  tracked v.
Proof.
  intros Hm Hnone. split.
  - intros key l item Hkl. rewrite Hm in Hkl. by apply elem_of_nil in Hkl.
  - intros pos k Hk Hsome. rewrite (Hnone pos k Hk) in Hsome. by destruct Hsome.
Qed.

Lemma clearSearch_keeps_tracked (v : t) : tracked v → tracked (clearSearch v).1.
Proof.
  intros Htracked.
  destruct (clearSearch_contents v Htracked) as (cs1 & -> & _ & Hnone).
  apply tracked_without_hits; [done|]. intros pos k Hk. by apply Hnone.
Qed.


End RegistryFacts.

(* ===================================================================== *)
(** ** Media overlay: the highlight handlers of [open] *)
(* ===================================================================== *)

Module Narration.
Import View.

(** A closure made for [pageFlipTimeupdateHandler]: its identity and the
    [flipTime] it has captured. *)
Record Handler : Type := mkHandler {
  handler_id : nat;
  flipTime : float
}.

(** The view together with what the closures of [open] share: the
    variables [pageFlipTimeupdateHandler] and [lastActive], the
    [timeupdate] listeners registered on the audio element, and the
    elements that carry the active class. *)
Record Session : Type := mkSession {
  view : View.t;
  timeupdateListeners : list Handler;
  pageFlipTimeupdateHandler : option Handler;
  lastActive : option nat;
  activeElements : list nat;
  created : nat
}.

(** What a listener run leaves to the outside. *)
Inductive Outcome : Type :=
  | PageFlip
  | Uncaught (e : JsError).

Definition set_view (s : Session) (v : View.t) : Session :=
  mkSession v (timeupdateListeners s) (pageFlipTimeupdateHandler s) (lastActive s)
            (activeElements s) (created s).

Definition same_handler (a b : Handler) : bool :=
  Nat.eqb (handler_id a) (handler_id b).

(** [cleanupPageFlipHandler()] *)
Definition cleanupPageFlipHandler (s : Session) : Completion Session :=
  match pageFlipTimeupdateHandler s with
  | None => Normal s
  | Some h =>
    match mediaOverlay (view s) with
    | None => Throw TypeError
    | Some mo =>
      let listeners :=
        if audio mo
        then List.filter (fun l => negb (same_handler l h)) (timeupdateListeners s)
        else timeupdateListeners s in
      Normal (mkSession (view s) listeners None (lastActive s) (activeElements s)
                        (created s))
    end
  end.

Definition with_index (index : float) (x : Content) : Content :=
  mkContent index (doc x) (overlayer x).

(** [contents.find(x => x.index = index)]: the predicate stores [index] in
    each entry it visits, and its value is that of [index]. *)
Fixpoint find_assign (contents : list Content) (index : float)
    : list Content * option Content :=
  match contents with
  | [] => ([], None)
  | x :: rest =>
    if truthy_number index then (with_index index x :: rest, Some (with_index index x))
    else
      let (rest', found) := find_assign rest index in
      (with_index index x :: rest', found)
  end.

(** [const { doc } = this.renderer.getContents().find(x => x.index =
    resolved.index); resolved.anchor(doc)]: the contents as the lookup
    leaves them, and the document and element it gives. *)
Definition lookup_anchor (v : View.t) (resolved : option Resolved)
    : View.t * Completion (option Split.Document * Span) :=
  match resolved with
  | None => (v, Throw TypeError)
  | Some r =>
    let (contents, found) := find_assign (getContents (renderer v)) (index r) in
    let v' := set_contents v contents in
    match found with
    | None => (v', Throw TypeError)
    | Some x =>
      match anchor r, doc x with
      | Some (AnchorFunction f), Some d =>
        match f d with
        | Normal el => (v', Normal (Some d, el))
        | Throw e => (v', Throw e)
        end
      | _, _ => (v', Throw TypeError)
      end
    end
  end.

(** [el.classList.add(activeClass); lastActive = new WeakRef(el)] *)
Definition mark_active (s : Session) (el : Span) : Completion Session :=
  match el with
  | None => Throw TypeError
  | Some e =>
    Normal (mkSession (view s) (timeupdateListeners s) (pageFlipTimeupdateHandler s)
                      (Some (Split.uid e)) (Split.uid e :: activeElements s)
                      (created s))
  end.

(** [highlightElement()] *)
Definition highlightElement (s : Session) (resolved : option Resolved)
    : Session * Completion unit :=
  let (v, found) := lookup_anchor (view s) resolved in
  match found with
  | Throw e => (set_view s v, Throw e)
  | Normal (_, el) =>
    match mark_active (set_view s v) el with
    | Throw e => (set_view s v, Throw e)
    | Normal s' => (s', Normal tt)
    end
  end.

(** The callback of [this.renderer.goTo(resolved).then(...)]. *)
Definition navigated (s : Session) (resolved : option Resolved)
    : Session * Completion unit :=
  match highlightElement s resolved with
  | (s1, Throw e) => (s1, Throw e)
  | (s1, Normal _) =>
    match mediaOverlay (view s1) with
    | None => (s1, Throw TypeError)
    | Some mo =>
      match activeItem mo, audio mo with
      | Some currentItem, true =>
        let (v, found) := lookup_anchor (view s1) resolved in
        let s2 := set_view s1 v in
        match found with
        | Throw e => (s2, Throw e)
        | Normal (currentDoc, currentEl) =>
          let splitInfo :=
            Split.getElementSplitInfo currentEl currentDoc (Some (box (renderer v))) in
          match Split.scheduledFlip splitInfo (Split.atEnd (box (renderer v)))
                                    currentItem with
          | None => (s2, Normal tt)
          | Some flipTime =>
            let h := mkHandler (created s2) flipTime in
            (mkSession v (timeupdateListeners s2 ++ [h]) (Some h) (lastActive s2)
                       (activeElements s2) (S (created s2)),
             Normal tt)
          end
        end
      | _, _ => (s1, Normal tt)
      end
    end
  end.

(** A navigation that a [highlight] has started and that has not settled
    yet: the target given to [this.renderer.goTo], which the callback of
    [then] has captured, and how the promise will settle. *)
Record Navigation : Type := mkNavigation {
  target : option Resolved;
  settles : Completion unit
}.

(** The [highlight] listener, for [e.detail.text = text], up to its
    return.  With [autoScroll] on it calls [this.renderer.goTo(resolved)]
    and leaves the callback of [then] waiting for the promise: the result
    names that navigation, and nothing of the callback has run. *)
Definition highlight (s : Session) (text : Value)
    : Session * Completion (option Navigation) :=
  match cleanupPageFlipHandler s with
  | Throw e => (s, Throw e)
  | Normal s0 =>
    match (resolveNavigation (view s0) text).1, mediaOverlay (view s0) with
    | Throw e, _ => (s0, Throw e)
    | _, None => (s0, Throw TypeError)
    | Normal resolved, Some mo =>
      if autoScroll mo then
        (s0, Normal (Some (mkNavigation resolved
                             (renderer_goTo (renderer (view s0)) resolved))))
      else
        match resolved with
        | None => (s0, Normal None)
        | Some r =>
          match List.find (fun x => PrimFloat.eqb (c_index x) (index r))
                          (getContents (renderer (view s0))) with
          | Some x =>
            match anchor r, doc x with
            | Some (AnchorFunction f), Some d =>
              match f d with
              | Normal (Some e) =>
                (mkSession (view s0) (timeupdateListeners s0)
                           (pageFlipTimeupdateHandler s0) (Some (Split.uid e))
                           (Split.uid e :: activeElements s0) (created s0),
                 Normal None)
              | _ => (s0, Normal None)
              end
            | _, _ => (s0, Normal None)
            end
          | None => (s0, Normal None)
          end
        end
    end
  end.

(** The promise of [this.renderer.goTo(resolved)] settles, on the session
    as it is by then: fulfilled, the callback of [then] runs; rejected,
    nothing runs and the rejection is left unhandled. *)
Definition settle (s : Session) (n : Navigation) : Session * Completion unit :=
  match settles n with
  | Throw e => (s, Throw e)
  | Normal _ => navigated s (target n)
  end.

(** A [highlight] whose navigation settles before any other event
    arrives: the listener, and at once the callback. *)
Definition highlight_settled (s : Session) (text : Value) : Session * Completion unit :=
  match highlight s text with
  | (s1, Throw e) => (s1, Throw e)
  | (s1, Normal None) => (s1, Normal tt)
  | (s1, Normal (Some n)) => settle s1 n
  end.

(** The [unhighlight] listener. *)
Definition unhighlight (s : Session) : Session * Completion unit :=
  match cleanupPageFlipHandler s with
  | Throw e => (s, Throw e)
  | Normal s0 =>
    match lastActive s0 with
    | None => (s0, Normal tt)
    | Some el =>
      (mkSession (view s0) (timeupdateListeners s0) (pageFlipTimeupdateHandler s0)
                 (lastActive s0)
                 (List.filter (fun x => negb (Nat.eqb x el)) (activeElements s0))
                 (created s0),
       Normal tt)
    end
  end.

(** [View.close()]: it touches the view only. *)
Definition close (s : Session) : Session := set_view s (View.close (view s)).

(** One run of an armed listener at [audio.currentTime = currentTime]. *)
Definition run_listener (currentTime : float) (s : Session) (h : Handler)
    : Session * list Outcome :=
  match mediaOverlay (view s) with
  | None => (s, [Uncaught TypeError])
  | Some mo =>
    if audio mo && PrimFloat.leb (flipTime h) currentTime then
      match cleanupPageFlipHandler s with
      | Throw e => (s, [Uncaught e])
      | Normal s' => (s', [PageFlip])
      end
    else (s, [])
  end.

(** The audio element fires [timeupdate]: the listeners registered at
    that moment run in turn, except those that an earlier one has removed
    meanwhile. *)
Definition timeupdate (s : Session) (currentTime : float) : Session * list Outcome :=
  fold_left (fun acc h =>
               if existsb (same_handler h) (timeupdateListeners acc.1) then
                 let '(s', out) := run_listener currentTime acc.1 h in
                 (s', acc.2 ++ out)
               else acc)
            (timeupdateListeners s) (s, []).

(** What reaches the closures of [open], in the order it is handled: the
    two events of the media overlay, the settling of the navigation that
    has been in flight longest, a [timeupdate] of the audio element, and
    [close()]. *)
Inductive Event : Type :=
  | Highlight (text : Value)
  | Unhighlight
  | Settled
  | Timeupdate (currentTime : float)
  | Closed.

(** The session, the navigations in flight (oldest first), and what the
    runs so far have left to the outside. *)
Record Player : Type := mkPlayer {
  session : Session;
  inflight : list Navigation;
  outcomes : list Outcome
}.

Definition uncaught {A : Type} (c : Completion A) : list Outcome :=
  match c with
  | Throw e => [Uncaught e]
  | Normal _ => []
  end.

Definition step (p : Player) (e : Event) : Player :=
  match e with
  | Highlight text =>
    let (s, c) := highlight (session p) text in
    let started := match c with Normal (Some n) => [n] | _ => [] end in
    mkPlayer s (inflight p ++ started) (outcomes p ++ uncaught c)
  | Unhighlight =>
    let (s, c) := unhighlight (session p) in
    mkPlayer s (inflight p) (outcomes p ++ uncaught c)
  | Settled =>
    match inflight p with
    | [] => p
    | n :: rest =>
      let (s, c) := settle (session p) n in
      mkPlayer s rest (outcomes p ++ uncaught c)
    end
  | Timeupdate currentTime =>
    let (s, out) := timeupdate (session p) currentTime in
    mkPlayer s (inflight p) (outcomes p ++ out)
  | Closed => mkPlayer (close (session p)) (inflight p) (outcomes p)
  end.

Definition run (s : Session) (events : list Event) : Player :=
  fold_left step events (mkPlayer s [] []).

End Narration.

(* ===================================================================== *)
(** ** Facts about the highlight handlers *)
(* ===================================================================== *)

Module NarrationFacts.
Import View Narration.

(** *** The lookup [find(x => x.index = resolved.index)] *)

Definition first_section : Content := mkContent 0 (Some SplitFacts.content_doc) None.
Definition second_section : Content := mkContent 1 (Some SplitFacts.content_doc) None.

(** C10 (evaluation at the failing input). A sentence of the first
    section is highlighted, both sections being rendered: with a resolved
    index of 0 the lookup [find(x => x.index = resolved.index)] selects no
    entry, not the first one; it stores 0 in every entry and finds
    nothing, and [highlightElement] throws a TypeError.  The lookup of the
    branch for [autoScroll] off, which compares with [===], finds the
    first section on the same input. *)
Lemma find_assign_zero_selects_nothing :
  find_assign [first_section; second_section] 0
  = ([first_section; with_index 0 second_section], None)
  ∧ (∀ s : Session,
       getContents (renderer (view s)) = [first_section; second_section] →
       (highlightElement s (Some (mkResolved 0 None))).2 = Throw TypeError)
  ∧ List.find (fun x => PrimFloat.eqb (c_index x) 0) [first_section; second_section]
    = Some first_section.
Proof.
  split; [reflexivity|]. split; [|reflexivity].
  intros s Hcontents. unfold highlightElement, lookup_anchor.
  simpl. rewrite Hcontents. reflexivity.
Qed.

(** What the lookup does for every index.  When the resolved index is
    truthy (neither 0 nor NaN) it selects the first entry of
    [getContents()], whatever the entries' indices, and overwrites that
    entry's index with the resolved one.  When the resolved index is 0 or
    NaN it overwrites the index of every entry and selects none, and
    [highlightElement] throws a TypeError. *)
Theorem find_assign_selects :
  (∀ (x : Content) (rest : list Content) (index : float),
     truthy_number index = true →
     find_assign (x :: rest) index
     = (with_index index x :: rest, Some (with_index index x)))
  ∧ (∀ (contents : list Content) (index : float),
       truthy_number index = false →
       find_assign contents index = (map (with_index index) contents, None))
  ∧ (∀ (s : Session) (r : Resolved),
       truthy_number (index r) = false →
       (highlightElement s (Some r)).2 = Throw TypeError).
Proof.
  assert (Hnone : ∀ (contents : list Content) (index : float),
             truthy_number index = false →
             find_assign contents index = (map (with_index index) contents, None)).
  { intros contents index Hf.
    induction contents as [|x rest IH]; simpl; [done|].
    rewrite Hf, IH. done. }
  split; [|split; [exact Hnone|]].
  - intros x rest index Ht. simpl. by rewrite Ht.
  - intros s r Hf. unfold highlightElement, lookup_anchor.
    rewrite (Hnone _ _ Hf). reflexivity.
Qed.

Example find_assign_ignores_indices :
  find_assign [first_section; second_section] 1
  = ([with_index 1 first_section; second_section], Some (with_index 1 first_section)).
Proof. reflexivity. Qed.

(** *** Listeners across [close] *)

(** [close] removes no listener from the audio element and does not clear
    [pageFlipTimeupdateHandler]. *)
Lemma close_keeps_listeners (s : Session) :
  timeupdateListeners (close s) = timeupdateListeners s
  ∧ pageFlipTimeupdateHandler (close s) = pageFlipTimeupdateHandler s.
Proof. split; reflexivity. Qed.

(** A book read aloud: every target leads to the sentence that overflows
    the page to the right, in the second section. *)
Definition sentence : Anchor :=
  AnchorFunction (fun _ => Normal (Some SplitFacts.overflowing_right)).

Definition narrated_book : Book :=
  mkBook [mkSection None None; mkSection None None]
         (fun _ => Normal (Some (mkResolved 1 (Some sentence))))
         None false.

Definition narrated_view : View.t :=
  View.open narrated_book NavigationFacts.plain_cfi
    (mkRenderer (fun _ => Normal tt) [second_section] SplitFacts.page)
    (AnnotationFacts.by_size, AnnotationFacts.toc_labels, AnnotationFacts.toc_labels)
    (Some (mkMediaOverlay true (Some FlipFacts.example_item) true))
    (fun _ => None).

Definition listening : Session := mkSession narrated_view [] None None [] 0.

(** The listener that [highlight] arms for the sentence. *)
Definition armed : Handler :=
  mkHandler 0 (Split.flipTime FlipFacts.example_item (Split.mkSplitInfo 0.3 0.7)).

(** C3 (evaluation at the failing input). A [highlight] of a sentence that
    is split over two pages arms a flip listener once its navigation has
    settled.  After [close()] the listener is still registered on the
    audio element, and the next [timeupdate] runs it: it throws a
    TypeError, the view having no media overlay any more.  An
    [unhighlight] in place of the [close()] removes it. *)
Theorem close_leaves_flip_listener :
  timeupdateListeners (highlight_settled listening (VString "s1.xhtml#sentence1")).1 = [armed]
  ∧ timeupdateListeners (close (highlight_settled listening (VString "s1.xhtml#sentence1")).1)
    = [armed]
  ∧ (timeupdate (close (highlight_settled listening (VString "s1.xhtml#sentence1")).1) 2310).2
    = [Uncaught TypeError]
  ∧ timeupdateListeners
      (unhighlight (highlight_settled listening (VString "s1.xhtml#sentence1")).1).1 = [].
Proof. repeat split; vm_compute; reflexivity. Qed.

(** Without the [close()], the listener turns the page once and is gone. *)
Example flip_fires_once :
  (timeupdate (highlight_settled listening (VString "s1.xhtml#sentence1")).1 2310).2 = [PageFlip]
  ∧ timeupdateListeners
      (timeupdate (highlight_settled listening (VString "s1.xhtml#sentence1")).1 2310).1 = [].
Proof. split; vm_compute; reflexivity. Qed.

End NarrationFacts.

(* ===================================================================== *)
(** ** More about [History]: moving, replacing, pushing *)
(* ===================================================================== *)

Module HistoryMoves.
Import History.

Local Open Scope Z_scope.

(** [back()] then [forward()] from a position that has an entry before it
    leads back to the same history, and [forward()] then [back()] from a
    position that has an entry after it does too; the [popstate] events
    carry the entry moved to. *)
Theorem back_forward_round_trip (h : t) :
  pointer_ok h →
  (0 < index h →
     back h = (mk (arr h) (index h - 1),
               [PopState (arr_get (arr h) (index h - 1)); IndexChange])
     ∧ forward (back h).1
       = (h, [PopState (arr_get (arr h) (index h)); IndexChange]))
  ∧ (index h < arr_length (arr h) - 1 →
     forward h = (mk (arr h) (index h + 1),
                  [PopState (arr_get (arr h) (index h + 1)); IndexChange])
     ∧ back (forward h).1
       = (h, [PopState (arr_get (arr h) (index h)); IndexChange])).
Proof.
  intros Hok. destruct h as [a i]. simpl in *.
  unfold pointer_ok in Hok. simpl in Hok.
  split; intros Hpos.
  - assert (Hi : 0 <= i < arr_length a) by (destruct Hok as [[? ?]|?]; lia).
    unfold back. simpl.
    destruct (Z.leb_spec i 0); [lia|]. split; [done|].
    unfold forward. simpl.
    destruct (i - 1 >=? arr_length a - 1) eqn:Hge.
    { rewrite Z.geb_leb in Hge. apply Z.leb_le in Hge. lia. }
    by replace (i - 1 + 1) with i by lia.
  - assert (Hi : 0 <= i).
    { destruct Hok as [[-> Hl]|?]; [|lia].
      unfold arr_length in Hpos. rewrite Hl in Hpos. simpl in Hpos. lia. }
    unfold forward. simpl.
    destruct (i >=? arr_length a - 1) eqn:Hge.
    { rewrite Z.geb_leb in Hge. apply Z.leb_le in Hge. lia. }
    split; [done|].
    unfold back. simpl.
    destruct (Z.leb_spec (i + 1) 0); [lia|].
    by replace (i + 1 - 1) with i by lia.
Qed.

Lemma back_forward_round_trip_witness :
  pointer_ok HistoryFacts.sample
  ∧ forward (back HistoryFacts.sample).1
    = (HistoryFacts.sample, [PopState (VString "chapter1.xhtml"); IndexChange])
  ∧ back (forward HistoryFacts.sample).1
    = (HistoryFacts.sample, [PopState (VString "chapter1.xhtml"); IndexChange]).
Proof.
  assert (Hok : pointer_ok HistoryFacts.sample)
    by (right; unfold arr_length; simpl; lia).
  split; [exact Hok|].
  destruct (back_forward_round_trip HistoryFacts.sample Hok) as [Hb Hf].
  split.
  - destruct Hb as [_ H]; [reflexivity|exact H].
  - destruct Hf as [_ H]; [reflexivity|exact H].
Defined.

(** [canGoBack] and [canGoForward] tell exactly whether [back()] and
    [forward()] move: when one is false the move changes nothing and
    dispatches nothing; when it is true the pointer moves by one over the
    same array and both events are dispatched. *)
Theorem canGo_tells_whether_it_moves (h : t) :
  (canGoBack h = false → back h = (h, []))
  ∧ (canGoBack h = true →
       (back h).1 = mk (arr h) (index h - 1) ∧ length (back h).2 = 2%nat)
  ∧ (canGoForward h = false → forward h = (h, []))
  ∧ (canGoForward h = true →
       (forward h).1 = mk (arr h) (index h + 1) ∧ length (forward h).2 = 2%nat).
Proof.
  unfold canGoBack, canGoForward, back, forward.
  split; [|split; [|split]]; intros H.
  - destruct (Z.leb_spec (index h) 0); [done|].
    rewrite Z.gtb_ltb in H. apply Z.ltb_ge in H. lia.
  - rewrite Z.gtb_ltb in H. apply Z.ltb_lt in H.
    destruct (Z.leb_spec (index h) 0); [lia|done].
  - apply Z.ltb_ge in H.
    destruct (index h >=? arr_length (arr h) - 1) eqn:Hge; [done|].
    rewrite Z.geb_leb in Hge. apply Z.leb_gt in Hge. lia.
  - apply Z.ltb_lt in H.
    destruct (index h >=? arr_length (arr h) - 1) eqn:Hge; [|done].
    rewrite Z.geb_leb in Hge. apply Z.leb_le in Hge. lia.
Qed.

(** [replaceState(x)] on a history that has a current entry overwrites
    that entry and nothing else: [x] is read back at the pointer, every
    other index reads as before, and the length and the pointer stay. *)
Theorem replaceState_overwrites_current (h : t) (x : Value) :
  pointer_ok h → 0 <= index h →
  arr_get (arr (replaceState h x)) (index h) = x
  ∧ (∀ j, j ≠ index h → arr_get (arr (replaceState h x)) j = arr_get (arr h) j)
  ∧ arr_length (arr (replaceState h x)) = arr_length (arr h)
  ∧ index (replaceState h x) = index h.
Proof.
  intros Hok Hpos. destruct h as [[l ps] i]. simpl in *.
  assert (Hi : 0 <= i < Z.of_nat (length l)).
  { destruct Hok as [[? ?]|Hi]; [simpl in *; lia|]. exact Hi. }
  unfold replaceState, arr_set, arr_length. simpl.
  destruct (Z.leb_spec 0 i); [|lia].
  destruct (Z.ltb_spec i (Z.of_nat (length l))); [|lia].
  unfold arr_get. simpl.
  destruct (Z.leb_spec 0 i); [|lia].
  repeat split.
  - rewrite list_lookup_insert_eq by lia. done.
  - intros j Hj. destruct (Z.leb_spec 0 j); [|done].
    rewrite list_lookup_insert_ne by lia. done.
  - by rewrite length_insert.
Qed.

Lemma replaceState_overwrites_current_witness :
  pointer_ok HistoryFacts.sample
  ∧ arr (replaceState HistoryFacts.sample (VString "epubcfi(/6/4!/4/2)"))
    = mkArray [VNumber 0; VString "epubcfi(/6/4!/4/2)"; VString "chapter2.xhtml"] ∅
  ∧ arr_get (arr (replaceState HistoryFacts.sample (VString "epubcfi(/6/4!/4/2)"))) 1
    = VString "epubcfi(/6/4!/4/2)".
Proof.
  assert (Hok : pointer_ok HistoryFacts.sample)
    by (right; unfold arr_length; simpl; lia).
  split; [exact Hok|]. split; [reflexivity|].
  apply (replaceState_overwrites_current HistoryFacts.sample _ Hok). simpl. lia.
Defined.

(** On an empty history (pointer -1) [replaceState(x)] adds no entry: the
    array stays empty, the pointer stays at -1, and [x] lands in the
    array's property ["-1"].  A [pushState] of that same value right
    after is then taken for a repetition and dropped, so the history is
    still empty. *)
Theorem replaceState_on_empty_swallows_push (h : t) (x : Value) :
  index h = -1 → elems (arr h) = [] → strict_equal x x = true →
  arr_length (arr (replaceState h x)) = 0
  ∧ index (replaceState h x) = -1
  ∧ arr_get (arr (replaceState h x)) (-1) = x
  ∧ pushState (replaceState h x) x = Normal (replaceState h x, [])
  ∧ canGoBack (replaceState h x) = false.
Proof.
  intros Hi Hl Hx. destruct h as [[l ps] i]. simpl in *. subst i l.
  assert (Hget : arr_get (arr (replaceState (mk (mkArray [] ps) (-1)) x)) (-1) = x).
  { unfold replaceState, arr_set, arr_get. simpl. by rewrite lookup_insert_eq. }
  repeat split; try done.
  unfold pushState, coalesces.
  change (index (replaceState (mk (mkArray [] ps) (-1)) x)) with (-1).
  rewrite Hget, Hx. done.
Qed.

Lemma replaceState_on_empty_swallows_push_witness :
  pushState (replaceState new (VString "epubcfi(/6/4!/4/2)")) (VString "epubcfi(/6/4!/4/2)")
  = Normal (replaceState new (VString "epubcfi(/6/4!/4/2)"), [])
  ∧ elems (arr (replaceState new (VString "epubcfi(/6/4!/4/2)"))) = [].
Proof.
  destruct (replaceState_on_empty_swallows_push new (VString "epubcfi(/6/4!/4/2)")
              eq_refl eq_refl eq_refl) as (_ & _ & _ & Hpush & _).
  split; [exact Hpush|reflexivity].
Defined.

(** [pushState(undefined)] and [pushState(null)] throw a TypeError when the
    current entry has a truthy [fraction], and the history is then as it
    was; over any other current entry they push. *)
Theorem pushState_nullish (h : t) (x : Value) :
  x = VUndefined ∨ x = VNull →
  (truthy (get_fraction_opt (arr_get (arr h) (index h))) = true →
     pushState h x = Throw TypeError)
  ∧ (truthy (get_fraction_opt (arr_get (arr h) (index h))) = false →
     strict_equal (arr_get (arr h) (index h)) x = false →
     ∃ h', pushState h x = Normal (h', [IndexChange]) ∧ index h' = index h + 1).
Proof.
  intros Hx. unfold pushState, coalesces. split.
  - intros Ht.
    destruct (arr_get (arr h) (index h)) as [| | | | |r f]; simpl in Ht; try done.
    destruct Hx as [-> | ->]; simpl; rewrite Ht; done.
  - intros Ht Hne. rewrite Hne, Ht. simpl. eauto.
Qed.

Lemma pushState_nullish_witness :
  pushState (mk (mkArray [VObject 1 (VNumber 0.5)] ∅) 0) VUndefined = Throw TypeError.
Proof.
  destruct (pushState_nullish (mk (mkArray [VObject 1 (VNumber 0.5)] ∅) 0) VUndefined
              (or_introl eq_refl)) as [H _].
  exact (H eq_refl).
Defined.

(** After a push that is not a repetition, [back()] announces the entry
    that was current before the push and [forward()] then announces the
    pushed one, over the array the push left. *)
Theorem back_after_push (h : t) (x : Value) :
  pointer_ok h → 0 <= index h → coalesces h x = Normal false →
  pushState h x = Normal (pushed h x, [IndexChange])
  ∧ back (pushed h x)
    = (mk (arr (pushed h x)) (index h),
       [PopState (arr_get (arr h) (index h)); IndexChange])
  ∧ forward (back (pushed h x)).1 = (pushed h x, [PopState x; IndexChange]).
Proof.
  intros Hok Hpos Hc.
  assert (Hi : 0 <= index h < arr_length (arr h))
    by (destruct Hok as [[? ?]|?]; lia).
  split; [by apply HistoryFacts.pushState_fresh|].
  assert (Hold : arr_get (arr (pushed h x)) (index h) = arr_get (arr h) (index h)).
  { unfold pushed, arr_get, arr_length in *. simpl.
    destruct (Z.leb_spec 0 (index h)); [|lia].
    rewrite lookup_app_l by (rewrite length_take; lia).
    rewrite lookup_take_lt by lia. done. }
  assert (Hback : back (pushed h x)
                  = (mk (arr (pushed h x)) (index h),
                     [PopState (arr_get (arr h) (index h)); IndexChange])).
  { unfold back. simpl index.
    destruct (Z.leb_spec (index h + 1) 0); [lia|].
    replace (index h + 1 - 1) with (index h) by lia. by rewrite Hold. }
  split; [exact Hback|]. rewrite Hback. simpl fst.
  unfold forward. simpl index. simpl arr.
  pose proof (HistoryFacts.pushed_pointer_last h x Hok) as Hlast.
  simpl in Hlast.
  destruct (index h >=? arr_length (arr (pushed h x)) - 1) eqn:Hge.
  { rewrite Z.geb_leb in Hge. apply Z.leb_le in Hge. simpl in Hge. lia. }
  pose proof (HistoryFacts.arr_get_pushed h x Hok) as Hnew. simpl in Hnew.
  unfold pushed in Hge. simpl in Hge. rewrite Hge, Hnew. done.
Qed.

Lemma back_after_push_witness :
  back (pushed HistoryFacts.sample (VString "chapter3.xhtml"))
  = (mk (mkArray [VNumber 0; VString "chapter1.xhtml"; VString "chapter3.xhtml"] ∅) 1,
     [PopState (VString "chapter1.xhtml"); IndexChange]).
Proof.
  assert (Hok : pointer_ok HistoryFacts.sample)
    by (right; unfold arr_length; simpl; lia).
  destruct (back_after_push HistoryFacts.sample (VString "chapter3.xhtml") Hok)
    as (_ & H & _); [simpl; lia | reflexivity | exact H].
Defined.

Lemma pushState_equal_fraction_witness :
  pushState (mk (mkArray [VObject 1 (VNumber 0.25)] ∅) 0) (VObject 2 (VNumber 0.25))
  = Normal (mk (mkArray [VObject 1 (VNumber 0.25)] ∅) 0, []).
Proof.
  apply (HistoryFacts.pushState_equal_fraction _ 2 1 0.25 0.25); reflexivity.
Defined.

Lemma pushState_same_object_twice_witness :
  pointer_ok new
  ∧ pushState HistoryFacts.after_first_zero (VObject 1 (VNumber 0))
    = Normal (HistoryFacts.after_first_zero, []).
Proof.
  split; [apply HistoryFacts.pointer_ok_new|].
  apply (HistoryFacts.pushState_same_object_twice new _ 1 (VNumber 0) [IndexChange]);
    [apply HistoryFacts.pointer_ok_new | reflexivity].
Defined.

End HistoryMoves.

(* ===================================================================== *)
(** ** Opening a file: format detection and the zip loader *)
(* ===================================================================== *)

Module Loader.

(** A [File] or a [Blob]: its name ([undefined] for a [Blob] that is not
    a [File]), its MIME type and its bytes. *)
Record File : Type := mkFile {
  name : option string;
  type : string;
  content : list Byte.byte
}.

(** [file.size] *)
Definition size (file : File) : nat := length (content file).

(** [arr[i] === b], for [arr] the first bytes of the file: false where the
    file is shorter. *)
Definition byte_is (arr : list Byte.byte) (i : nat) (b : Byte.byte) : bool :=
  match arr !! i with
  | Some x => Byte.eqb x b
  | None => false
  end.

Definition isZip (file : File) : bool :=
  let arr := take 4 (content file) in
  byte_is arr 0 Byte.x50 && byte_is arr 1 Byte.x4b
  && byte_is arr 2 Byte.x03 && byte_is arr 3 Byte.x04.

Definition isPDF (file : File) : bool :=
  let arr := take 5 (content file) in
  byte_is arr 0 Byte.x25
  && byte_is arr 1 Byte.x50 && byte_is arr 2 Byte.x44 && byte_is arr 3 Byte.x46
  && byte_is arr 4 Byte.x2d.

(** [s.endsWith(suffix)] *)
Definition endsWith (s suffix : string) : bool :=
  let n := String.length s in
  let m := String.length suffix in
  (m <=? n)%nat && String.eqb (String.substring (n - m) m s) suffix.

(** The three tests by type and name.  The name is looked at only when
    the type differs, and [name.endsWith] throws a TypeError when the
    name is [undefined]. *)
Definition isCBZ (file : File) : Completion bool :=
  if String.eqb (type file) "application/vnd.comicbook+zip" then Normal true
  else
    match name file with
    | None => Throw TypeError
    | Some n => Normal (endsWith n ".cbz")
    end.

Definition isFB2 (file : File) : Completion bool :=
  if String.eqb (type file) "application/x-fictionbook+xml" then Normal true
  else
    match name file with
    | None => Throw TypeError
    | Some n => Normal (endsWith n ".fb2")
    end.

Definition isFBZ (file : File) : Completion bool :=
  if String.eqb (type file) "application/x-zip-compressed-fb2" then Normal true
  else
    match name file with
    | None => Throw TypeError
    | Some n => Normal (endsWith n ".fb2.zip" || endsWith n ".fbz")
    end.

(** What [makeBook] is given: a directory entry or a file.  (A URL is
    fetched into a file first.) *)
Inductive Source : Type :=
  | Directory
  | Blob (file : File).

(** What the vendored and sibling modules decide: the entry names that
    [zip.js] lists for a file (or its failure), and [isMOBI] of
    [mobi.js]. *)
Record Formats : Type := mkFormats {
  getEntries : File -> Completion (list string);
  isMOBI : File -> bool
}.

(** The parser that [makeBook] hands the file to. *)
Inductive Book : Type :=
  | EPUB_directory
  | ComicBook
  | FB2_entry (filename : string)
  | EPUB_zip
  | PDF
  | MOBI
  | FB2.

Inductive LoadError : Type :=
  | NotFoundError
  | UnsupportedTypeError
  | Thrown (e : JsError).

(** [entries.find(entry => entry.filename.endsWith('.fb2')) ?? entries[0]],
    then [.filename]. *)
Definition fb2_entry (entries : list string) : Completion string :=
  match List.find (fun filename => endsWith filename ".fb2") entries with
  | Some filename => Normal filename
  | None =>
    match entries with
    | filename :: _ => Normal filename
    | [] => Throw TypeError
    end
  end.

Definition makeBook (env : Formats) (source : Source) : LoadError + Book :=
  match source with
  | Directory => inr EPUB_directory
  | Blob file =>
    if (size file =? 0)%nat then inl NotFoundError
    else if isZip file then
      match getEntries env file with
      | Throw e => inl (Thrown e)
      | Normal entries =>
        match isCBZ file with
        | Throw e => inl (Thrown e)
        | Normal true => inr ComicBook
        | Normal false =>
          match isFBZ file with
          | Throw e => inl (Thrown e)
          | Normal true =>
            match fb2_entry entries with
            | Normal filename => inr (FB2_entry filename)
            | Throw e => inl (Thrown e)
            end
          | Normal false => inr EPUB_zip
          end
        end
      end
    else if isPDF file then inr PDF
    else if isMOBI env file then inr MOBI
    else
      match isFB2 file with
      | Throw e => inl (Thrown e)
      | Normal true => inr FB2
      | Normal false => inl UnsupportedTypeError
      end
  end.

(** An entry of a zip archive, as the loader uses it. *)
Record ZipEntry : Type := mkEntry {
  filename : string;
  uncompressedSize : option nat;
  text : string
}.

(** [new Map(entries.map(entry => [entry.filename, entry]))]: the entries
    are set in order, a later one replacing an earlier one of the same
    name. *)
Definition entry_map (entries : list ZipEntry) : gmap string ZipEntry :=
  fold_left (fun m entry => <[filename entry := entry]> m) entries ∅.

(** [loadText(name)]: the text of the entry, or [null]. *)
Definition loadText (entries : list ZipEntry) (name : string) : option string :=
  match entry_map entries !! name with
  | Some entry => Some (text entry)
  | None => None
  end.

(** [getSize(name)]: [map.get(name)?.uncompressedSize ?? 0] *)
Definition getSize (entries : list ZipEntry) (name : string) : nat :=
  match entry_map entries !! name with
  | Some entry => default 0%nat (uncompressedSize entry)
  | None => 0%nat
  end.

End Loader.

Module LoaderFacts.
Import Loader.

Lemma isZip_not_empty (file : File) : isZip file = true → size file ≠ 0%nat.
Proof.
  unfold isZip, byte_is, size. intros H.
  destruct (content file) as [|b bs]; [discriminate|]. done.
Qed.

Lemma isZip_not_PDF (file : File) : isZip file = true → isPDF file = false.
Proof.
  unfold isZip, isPDF, byte_is.
  destruct (content file) as [|b bs]; [discriminate|]. simpl.
  destruct b; simpl; try discriminate. done.
Qed.

(** The zip signature alone decides whether a file is read as an archive.
    A file that starts with [50 4b 03 04] and whose entries can be listed
    is not a PDF and is never asked whether it is a MOBI.  If it has a
    name it goes to the comic-book reader if it is a CBZ by type or name,
    else to the FB2 reader if it is an FBZ by type or name, else to the
    EPUB reader.  If it has no name (a [Blob]) it goes to the comic-book
    reader when its type is the comic-book type, and [makeBook] throws a
    TypeError otherwise.  A file without the signature never goes to one
    of these three readers, whatever its name and type; if it is neither
    a PDF nor a MOBI and has no name, it goes to the FB2 reader when its
    type is the FB2 type, and [makeBook] throws a TypeError otherwise. *)
Theorem zip_signature_decides (env : Formats) (file : File) :
  (isZip file = true →
     ∀ entries, getEntries env file = Normal entries →
       isPDF file = false
       ∧ (∀ n, name file = Some n →
            makeBook env (Blob file)
            = if String.eqb (type file) "application/vnd.comicbook+zip"
                 || endsWith n ".cbz"
              then inr ComicBook
              else if String.eqb (type file) "application/x-zip-compressed-fb2"
                      || endsWith n ".fb2.zip" || endsWith n ".fbz"
              then match fb2_entry entries with
                   | Normal filename => inr (FB2_entry filename)
                   | Throw e => inl (Thrown e)
                   end
              else inr EPUB_zip)
       ∧ (name file = None →
            makeBook env (Blob file)
            = if String.eqb (type file) "application/vnd.comicbook+zip"
              then inr ComicBook
              else inl (Thrown TypeError)))
  ∧ (isZip file = false →
     (∀ book, makeBook env (Blob file) = inr book →
        book = PDF ∨ book = MOBI ∨ book = FB2)
     ∧ (size file ≠ 0%nat → isPDF file = false → isMOBI env file = false →
        name file = None →
        makeBook env (Blob file)
        = if String.eqb (type file) "application/x-fictionbook+xml"
          then inr FB2
          else inl (Thrown TypeError))).
Proof.
  split.
  - intros Hzip entries Hentries. split; [by apply isZip_not_PDF|].
    pose proof (isZip_not_empty file Hzip) as Hsize.
    unfold makeBook. rewrite Hzip, Hentries.
    destruct (Nat.eqb_spec (size file) 0) as [|_]; [done|].
    unfold isCBZ, isFBZ. split.
    + intros n ->.
      destruct (String.eqb (type file) "application/vnd.comicbook+zip");
        cbn [orb]; [done|].
      destruct (endsWith n ".cbz"); [done|].
      destruct (String.eqb (type file) "application/x-zip-compressed-fb2");
        cbn [orb]; [done|].
      by destruct (endsWith n ".fb2.zip" || endsWith n ".fbz").
    + intros ->.
      by destruct (String.eqb (type file) "application/vnd.comicbook+zip").
  - intros Hzip. split.
    + intros book. unfold makeBook. rewrite Hzip.
      destruct (size file =? 0)%nat; [done|].
      destruct (isPDF file); [intros [= <-]; auto|].
      destruct (isMOBI env file); [intros [= <-]; auto|].
      destruct (isFB2 file) as [[|]|e]; [intros [= <-]; auto|done|done].
    + intros Hsize Hpdf Hmobi Hname. unfold makeBook, isFB2.
      rewrite Hzip, Hpdf, Hmobi, Hname.
      destruct (Nat.eqb_spec (size file) 0) as [|_]; [done|].
      by destruct (String.eqb (type file) "application/x-fictionbook+xml").
Qed.

(** An EPUB archive handed over as a [Blob] without a name, and the same
    bytes as a [File]. *)
Example nameless_archive_rejected :
  let bytes := [Byte.x50; Byte.x4b; Byte.x03; Byte.x04; Byte.x14] in
  let env := mkFormats (fun _ => Normal ["mimetype"%string]) (fun _ => false) in
  makeBook env (Blob (mkFile None "application/epub+zip" bytes)) = inl (Thrown TypeError)
  ∧ makeBook env (Blob (mkFile (Some "book.epub"%string) "application/epub+zip" bytes))
    = inr EPUB_zip.
Proof. split; reflexivity. Qed.

(** The entry that is read from an FBZ archive is one of the archive's
    entries; it ends in [.fb2] whenever some entry does, and is the first
    entry otherwise; only for an archive without entries is there none,
    and the lookup throws a TypeError. *)
Theorem fb2_entry_choice (entries : list string) :
  (∀ filename, fb2_entry entries = Normal filename →
     In filename entries
     ∧ ((∃ e, In e entries ∧ endsWith e ".fb2" = true) →
        endsWith filename ".fb2" = true)
     ∧ ((∀ e, In e entries → endsWith e ".fb2" = false) →
        head entries = Some filename))
  ∧ (∀ e, fb2_entry entries = Throw e → entries = [] ∧ e = TypeError).
Proof.
  unfold fb2_entry.
  destruct (List.find (fun filename => endsWith filename ".fb2") entries)
    as [found|] eqn:Hfind.
  - apply find_some in Hfind as [Hin Hends]. split; [|done].
    intros filename [= <-]. split; [done|]. split; [done|].
    intros Hnone. rewrite (Hnone found Hin) in Hends. done.
  - split.
    + intros filename Hf. destruct entries as [|e0 rest]; [done|].
      injection Hf as <-. split; [by left|]. split; [|done].
      intros (e & Hin & Hends).
      rewrite (find_none _ _ Hfind e Hin) in Hends. done.
    + intros e He. destruct entries; [|done]. by injection He as <-.
Qed.

Lemma entry_map_from (entries : list ZipEntry) (name : string) :
  ∀ m : gmap string ZipEntry,
    fold_left (fun m entry => <[filename entry := entry]> m) entries m !! name
    = match last (filter (fun entry => filename entry = name) entries) with
      | Some entry => Some entry
      | None => m !! name
      end.
Proof.
  induction entries as [|e entries IH]; intros m; simpl; [done|].
  rewrite IH. destruct (decide (filename e = name)) as [Heq|Hne].
  - rewrite filter_cons_True by done. rewrite last_cons.
    destruct (last (filter _ entries)); [done|].
    rewrite <- Heq. apply lookup_insert_eq.
  - rewrite filter_cons_False by done.
    destruct (last (filter _ entries)); [done|].
    by apply lookup_insert_ne.
Qed.

(** The zip loader answers for a name with the last entry of that name in
    the archive's listing: its text and its size (0 when the entry has
    none).  For a name that no entry has, [loadText] gives [null] and
    [getSize] gives 0. *)
Theorem zip_loader_last_entry (entries : list ZipEntry) (name : string) :
  loadText entries name
  = text <$> last (filter (fun entry => filename entry = name) entries)
  ∧ getSize entries name
    = default 0%nat
        (last (filter (fun entry => filename entry = name) entries)
         ≫= uncompressedSize)
  ∧ ((∀ entry, entry ∈ entries → filename entry ≠ name) →
     loadText entries name = None ∧ getSize entries name = 0%nat).
Proof.
  unfold loadText, getSize, entry_map. rewrite entry_map_from.
  rewrite lookup_empty.
  split; [|split].
  - by destruct (last _).
  - by destruct (last _).
  - intros Hnone.
    assert (filter (fun entry => filename entry = name) entries = []) as ->; [|done].
    induction entries as [|e entries IH]; [done|].
    rewrite filter_cons_False by (apply Hnone; by left).
    apply IH. intros entry Hin. apply Hnone. by right.
Qed.

End LoaderFacts.

(* ===================================================================== *)
(** ** [class CursorAutohider] *)
(* ===================================================================== *)

Module Cursor.

(** The object [#state], shared by an autohider and all its clones. *)
Record State : Type := mkState {
  hidden : bool;
  x : option float;
  y : option float
}.

(** The autohiders made so far, each known by its element: the shared
    state, the elements whose [style.cursor] is ['none'], the elements
    that carry a [mousemove] listener, and the autohiders whose timeout is
    pending. *)
Record World : Type := mkWorld {
  state : State;
  cursorNone : gset nat;
  listening : gset nat;
  pending : gset nat
}.

(** [hide()] *)
Definition hide (w : World) (el : nat) : World :=
  mkWorld (mkState true (x (state w)) (y (state w)))
          (cursorNone w ∪ {[el]}) (listening w) (pending w).

(** [show()] *)
Definition show (w : World) (el : nat) : World :=
  mkWorld (mkState false (x (state w)) (y (state w)))
          (cursorNone w ∖ {[el]}) (listening w) (pending w).

(** [new CursorAutohider(el, check, state)] over the shared state, as
    [cloneFor(el)] does. *)
Definition cloneFor (w : World) (el : nat) : World :=
  let w' := if hidden (state w) then hide w el else w in
  mkWorld (state w') (cursorNone w') (listening w' ∪ {[el]}) (pending w').

(** [screenX === this.#state.x && screenY === this.#state.y] *)
Definition same_position (s : State) (screenX screenY : float) : bool :=
  match x s, y s with
  | Some sx, Some sy => PrimFloat.eqb screenX sx && PrimFloat.eqb screenY sy
  | _, _ => false
  end.

(** The [mousemove] listener of [el]; [check] is what [check()] returns
    at that moment. *)
Definition mousemove (w : World) (el : nat) (screenX screenY : float)
    (check : bool) : World :=
  if decide (el ∈ listening w) then
    if same_position (state w) screenX screenY then w
    else
      let w1 := mkWorld (mkState (hidden (state w)) (Some screenX) (Some screenY))
                        (cursorNone w) (listening w) (pending w) in
      let w2 := show w1 el in
      let cleared := pending w2 ∖ {[el]} in
      mkWorld (state w2) (cursorNone w2) (listening w2)
              (if check then cleared ∪ {[el]} else cleared)
  else w.

(** The timeout of [el] runs out. *)
Definition timeout (w : World) (el : nat) : World :=
  if decide (el ∈ pending w) then
    hide (mkWorld (state w) (cursorNone w) (listening w) (pending w ∖ {[el]})) el
  else w.

End Cursor.

Module CursorFacts.
Import Cursor.

Lemma mousemove_records_position (w : World) (el : nat) (sx sy : float) (check : bool) :
  el ∈ listening w →
  PrimFloat.eqb sx sx = true → PrimFloat.eqb sy sy = true →
  same_position (state (mousemove w el sx sy check)) sx sy = true.
Proof.
  intros Hel Hx Hy. unfold mousemove.
  destruct (decide (el ∈ listening w)); [|done].
  destruct (same_position (state w) sx sy) eqn:Hsame; [done|].
  unfold same_position. simpl. by rewrite Hx, Hy.
Qed.

(** Once the pointer has been seen at a position (not NaN), the timeout
    that follows hides the cursor, and a further [mousemove] at that same
    position changes nothing: the cursor stays hidden until the pointer
    really moves. *)
Theorem cursor_stays_hidden_without_move (w : World) (el : nat) (sx sy : float)
    (check : bool) :
  el ∈ listening w →
  PrimFloat.eqb sx sx = true → PrimFloat.eqb sy sy = true →
  let moved := mousemove w el sx sy true in
  let idle := timeout moved el in
  (el ∈ pending moved → el ∈ cursorNone idle ∧ hidden (state idle) = true)
  ∧ mousemove idle el sx sy check = idle.
Proof.
  intros Hel Hx Hy moved idle.
  pose proof (mousemove_records_position w el sx sy true Hel Hx Hy) as Hpos.
  fold moved in Hpos.
  assert (Hlisten : el ∈ listening moved).
  { unfold moved, mousemove. destruct (decide (el ∈ listening w)); [|done].
    by destruct (same_position (state w) sx sy). }
  split.
  - intros Hpending. unfold idle, timeout.
    destruct (decide (el ∈ pending moved)); [|done].
    simpl. split; [set_solver|done].
  - assert (Hidle : same_position (state idle) sx sy = true
                    ∧ el ∈ listening idle).
    { unfold idle, timeout. destruct (decide (el ∈ pending moved)); [|done].
      simpl. split; [exact Hpos|exact Hlisten]. }
    destruct Hidle as [Hsame Hin]. unfold mousemove.
    destruct (decide (el ∈ listening idle)); [|done]. by rewrite Hsame.
Qed.

Definition fresh_world : World :=
  cloneFor (mkWorld (mkState false None None) ∅ ∅ ∅) 0.

Lemma cursor_stays_hidden_without_move_witness :
  0 ∈ cursorNone (timeout (mousemove fresh_world 0 120 80 true) 0)
  ∧ mousemove (timeout (mousemove fresh_world 0 120 80 true) 0) 0 120 80 true
    = timeout (mousemove fresh_world 0 120 80 true) 0.
Proof.
  assert (Hel : 0 ∈ listening fresh_world) by (vm_compute; set_solver).
  destruct (cursor_stays_hidden_without_move fresh_world 0 120 80 true Hel
              eq_refl eq_refl) as [Hhide Hsame].
  split; [|exact Hsame].
  apply Hhide. unfold fresh_world, mousemove.
  destruct (decide (0 ∈ listening (cloneFor (mkWorld (mkState false None None) ∅ ∅ ∅) 0)));
    [|done].
  simpl. set_solver.
Defined.

(** The hidden flag is shared, the cursor style is not.  A clone made
    after a timeout has hidden the cursor starts with its own cursor
    hidden; a real move over that clone then shows the clone's cursor and
    clears the flag, while the element hidden first keeps [cursor: none]. *)
Theorem hidden_flag_is_shared (w : World) (a b : nat) (sx sy : float) (check : bool) :
  a ≠ b → a ∈ pending w →
  let hid := timeout w a in
  let cloned := cloneFor hid b in
  let moved := mousemove cloned b sx sy check in
  b ∈ cursorNone cloned
  ∧ (same_position (state cloned) sx sy = false →
     (b ∉ cursorNone moved) ∧ a ∈ cursorNone moved ∧ hidden (state moved) = false).
Proof.
  intros Hab Ha. cbv zeta.
  assert (Hhid : hidden (state (timeout w a)) = true ∧ a ∈ cursorNone (timeout w a)).
  { unfold timeout. destruct (decide (a ∈ pending w)); [|done].
    simpl. split; [done|set_solver]. }
  destruct Hhid as [Hflag Hnone].
  generalize dependent (timeout w a). intros hid Hflag Hnone.
  assert (Hcloned : cursorNone (cloneFor hid b) = cursorNone hid ∪ {[b]}
                    ∧ b ∈ listening (cloneFor hid b)).
  { unfold cloneFor. rewrite Hflag. simpl. split; [done|set_solver]. }
  destruct Hcloned as [Hcn Hlisten].
  generalize dependent (cloneFor hid b). intros cloned Hcn Hlisten.
  split.
  { rewrite Hcn. apply elem_of_union. right. by apply elem_of_singleton. }
  intros Hmoved. unfold mousemove.
  destruct (decide (b ∈ listening cloned)); [|done].
  rewrite Hmoved. simpl. rewrite Hcn. split; [|split; [|done]].
  - intros Hin. apply elem_of_difference in Hin as [_ Hin].
    apply Hin. by apply elem_of_singleton.
  - apply elem_of_difference. split.
    + apply elem_of_union. by left.
    + intros Hin. apply elem_of_singleton in Hin. done.
Qed.

Lemma hidden_flag_is_shared_witness :
  1 ∈ cursorNone (cloneFor (timeout (mousemove fresh_world 0 120 80 true) 0) 1)
  ∧ 0 ∈ cursorNone
        (mousemove (cloneFor (timeout (mousemove fresh_world 0 120 80 true) 0) 1)
                   1 300 200 true).
Proof.
  assert (Hp : 0 ∈ pending (mousemove fresh_world 0 120 80 true)).
  { unfold fresh_world, mousemove.
    destruct (decide (0 ∈ listening (cloneFor (mkWorld (mkState false None None) ∅ ∅ ∅) 0)))
      as [|Hn]; [simpl; set_solver|].
    exfalso. apply Hn. vm_compute. set_solver. }
  destruct (hidden_flag_is_shared (mousemove fresh_world 0 120 80 true) 0 1 300 200 true
              (ltac:(lia)) Hp) as [Hb Hmove].
  split; [exact Hb|].
  apply Hmove. vm_compute. reflexivity.
Defined.

End CursorFacts.

(* ===================================================================== *)
(** ** More about split detection *)
(* ===================================================================== *)

Module SplitSkips.
Import Split.

Local Open Scope float_scope.

Lemma decide_measure_direction (rs : list DOMRect) (f : DOMRect) (v : ViewportRect)
    (b : bool) :
  decide b (measure (mkLayout rs f v b)) = decide false (measure (mkLayout rs f v false)).
Proof.
  destruct b; [|done].
  apply (SplitFacts.decide_swapped). unfold measure. simpl.
  apply SplitFacts.fold_accumulate_swapped. repeat split.
Qed.

(** The [dir] attribute of the renderer has no influence on split
    detection: two renderers that differ in it only give the same result
    for every element and document. *)
Theorem split_detection_ignores_dir (el : option Element) (doc : option Document)
    (scrolled : bool) (rect : option DOMRect) (dir1 dir2 : option string)
    (atEnd : bool) :
  getElementSplitInfo el doc (Some (mkRenderer scrolled rect dir1 atEnd))
  = getElementSplitInfo el doc (Some (mkRenderer scrolled rect dir2 atEnd)).
Proof.
  unfold getElementSplitInfo, layout.
  destruct el as [el|], doc as [doc|]; try done. simpl.
  destruct (defaultView doc) as [w|]; [|done].
  destruct scrolled; [done|].
  destruct (List.filter _ (getClientRects el)) as [|r rs]; [done|].
  destruct (frameElement w) as [frameRect|], rect as [rendererRect|]; try done.
  destruct (falsy (width rendererRect) || falsy (height rendererRect)); [done|].
  destruct (_ || _); [done|].
  destruct (String.prefix "vertical" (default ""%string (writingMode w))); [done|].
  simpl. rewrite (decide_measure_direction _ _ _
                    match dir1 with Some d => String.eqb d "rtl" | None => false end).
  rewrite (decide_measure_direction _ _ _
             match dir2 with Some d => String.eqb d "rtl" | None => false end).
  done.
Qed.

Definition degenerate (rect : DOMRect) : Prop :=
  (0 <? width rect) && (0 <? height rect) = false.

Lemma filter_degenerate (rs : list DOMRect) :
  Forall degenerate rs →
  List.filter (fun rect => (0 <? width rect) && (0 <? height rect)) rs = [].
Proof.
  induction 1 as [|r rs Hr _ IH]; simpl; [done|].
  unfold degenerate in Hr. by rewrite Hr.
Qed.

(** Detection is skipped, whatever the geometry: in scrolled mode, for a
    document whose writing mode starts with [vertical], and for an element
    none of whose rectangles has positive width and height. *)
Theorem split_detection_skipped (el : Element) (doc : Document) (renderer : Renderer) :
  scrolled renderer = true
  ∨ (∃ w mode, defaultView doc = Some w ∧ writingMode w = Some mode
               ∧ String.prefix "vertical" mode = true)
  ∨ Forall degenerate (getClientRects el) →
  getElementSplitInfo (Some el) (Some doc) (Some renderer) = None.
Proof.
  intros H. unfold getElementSplitInfo.
  assert (layout (Some el) (Some doc) (Some renderer) = None) as ->; [|done].
  unfold layout. destruct (defaultView doc) as [w|] eqn:Hw; [|done].
  destruct H as [-> | [(w' & mode & Hw' & Hmode & Hv) | Hdeg]]; [done| |].
  - injection Hw' as <-. rewrite Hmode. simpl. rewrite Hv.
    repeat case_match; done.
  - rewrite (filter_degenerate _ Hdeg). by destruct (scrolled renderer).
Qed.

Definition vertical_doc : Document :=
  mkDocument (Some (mkWindow (Some (mkRect 0 3000 0 400 3000 400))
                             (Some "vertical-rl"%string))).

Lemma split_detection_skipped_witness :
  getElementSplitInfo (Some SplitFacts.overflowing_right) (Some vertical_doc)
                      (Some SplitFacts.page) = None.
Proof.
  apply split_detection_skipped. right. left.
  exists (mkWindow (Some (mkRect 0 3000 0 400 3000 400)) (Some "vertical-rl"%string)),
         "vertical-rl"%string.
  repeat split.
Defined.

(** Rectangles without positive width and height (zero, negative or NaN)
    count for nothing: the result is the same with and without them. *)
Theorem degenerate_rects_ignored (uid : nat) (before after : list DOMRect)
    (rect : DOMRect) (doc : option Document) (renderer : option Renderer) :
  degenerate rect →
  getElementSplitInfo (Some (mkElement uid (before ++ rect :: after))) doc renderer
  = getElementSplitInfo (Some (mkElement uid (before ++ after))) doc renderer.
Proof.
  intros Hdeg. unfold getElementSplitInfo, layout. simpl.
  rewrite !List.filter_app. simpl. unfold degenerate in Hdeg. rewrite Hdeg. done.
Qed.

Lemma degenerate_rects_ignored_witness :
  getElementSplitInfo
    (Some (mkElement 1 [mkRect 10 10 100 120 0 20; mkRect 270 370 100 120 100 20]))
    (Some SplitFacts.content_doc) (Some SplitFacts.page)
  = Some (mkSplitInfo 0.3 0.7).
Proof.
  rewrite (degenerate_rects_ignored 1 [] [mkRect 270 370 100 120 100 20]
             (mkRect 10 10 100 120 0 20)); [|reflexivity].
  vm_compute. reflexivity.
Defined.

End SplitSkips.

(* ===================================================================== *)
(** ** The flip listener across highlight, unhighlight and timeupdate *)
(* ===================================================================== *)

Module FlipListener.
Import View Narration.

(** The state between events as long as the view is open and every
    navigation has settled before the next [highlight] arrived: the
    listeners on the audio element are exactly the handler held in
    [pageFlipTimeupdateHandler], if any; that handler was made earlier;
    and it was armed on a media overlay with an audio element.  It is not
    kept when highlights overlap or after [close()]. *)
Definition armed_ok (s : Session) : Prop :=
  timeupdateListeners s
  = match pageFlipTimeupdateHandler s with Some h => [h] | None => [] end
  ∧ ∀ h, pageFlipTimeupdateHandler s = Some h →
      handler_id h < created s
      ∧ ∃ mo, mediaOverlay (view s) = Some mo ∧ audio mo = true.

(** The session with the listener removed and the variable cleared. *)
Definition disarmed (s : Session) : Session :=
  mkSession (view s) [] None (lastActive s) (activeElements s) (created s).

Lemma armed_ok_disarmed (s : Session) : armed_ok (disarmed s).
Proof. split; [done|]. intros h Hh. discriminate. Qed.

Lemma cleanup_disarms (s : Session) :
  armed_ok s → cleanupPageFlipHandler s = Normal (disarmed s).
Proof.
  intros [Hl Hh]. unfold cleanupPageFlipHandler, disarmed.
  destruct s as [v ls [h|] la ae n]; simpl in *.
  - destruct (Hh h eq_refl) as (_ & mo & -> & ->). subst ls. simpl.
    unfold same_handler. rewrite Nat.eqb_refl. done.
  - by subst ls.
Qed.

Lemma lookup_anchor_media (v : View.t) (resolved : option Resolved) :
  mediaOverlay (lookup_anchor v resolved).1 = mediaOverlay v.
Proof.
  unfold lookup_anchor. destruct resolved as [r|]; [|done].
  destruct (find_assign (getContents (renderer v)) (index r)) as [cs [x|]]; [|done].
  repeat case_match; done.
Qed.

Lemma highlightElement_keeps (s : Session) (resolved : option Resolved) :
  timeupdateListeners (highlightElement s resolved).1 = timeupdateListeners s
  ∧ pageFlipTimeupdateHandler (highlightElement s resolved).1
    = pageFlipTimeupdateHandler s
  ∧ created (highlightElement s resolved).1 = created s
  ∧ mediaOverlay (view (highlightElement s resolved).1) = mediaOverlay (view s).
Proof.
  unfold highlightElement.
  pose proof (lookup_anchor_media (view s) resolved) as Hm.
  destruct (lookup_anchor (view s) resolved) as [v [[d el]|e]]; simpl in Hm; [|done].
  destruct el as [e|]; simpl; done.
Qed.

Lemma quiet_ok (s : Session) (n : nat) :
  timeupdateListeners s = [] → pageFlipTimeupdateHandler s = None →
  armed_ok s ∧ ∀ h, h ∈ timeupdateListeners s → handler_id h = n.
Proof.
  intros Hl Hh. split; [split; [by rewrite Hl, Hh|]|].
  - intros h Hin. rewrite Hh in Hin. discriminate.
  - intros h Hin. rewrite Hl in Hin. by apply elem_of_nil in Hin.
Qed.

(** What the callback of [goTo(...).then] leaves when it starts from a
    disarmed session: again a disarmed one, or exactly one new listener. *)
Lemma navigated_arms (s : Session) (resolved : option Resolved) :
  timeupdateListeners s = [] → pageFlipTimeupdateHandler s = None →
  armed_ok (navigated s resolved).1
  ∧ ∀ h, h ∈ timeupdateListeners (navigated s resolved).1 → handler_id h = created s.
Proof.
  intros Hl Hh. unfold navigated.
  destruct (highlightElement_keeps s resolved) as (Hl1 & Hh1 & Hc1 & Hm1).
  destruct (highlightElement s resolved) as [s1 c1].
  cbn [fst] in Hl1, Hh1, Hc1, Hm1. rewrite Hl in Hl1. rewrite Hh in Hh1.
  destruct c1 as [[]|e]; [|by apply quiet_ok].
  destruct (mediaOverlay (view s1)) as [mo|] eqn:Hmo; [|by apply quiet_ok].
  destruct (activeItem mo) as [currentItem|]; [|by apply quiet_ok].
  destruct (audio mo) eqn:Haudio; [|by apply quiet_ok].
  pose proof (lookup_anchor_media (view s1) resolved) as Hm2.
  destruct (lookup_anchor (view s1) resolved) as [v found].
  cbn [fst] in Hm2.
  destruct found as [[currentDoc currentEl]|e]; [|by apply quiet_ok].
  destruct (Split.scheduledFlip _ _ currentItem) as [flipTime|];
    [|by apply quiet_ok].
  cbn [fst timeupdateListeners set_view pageFlipTimeupdateHandler created view].
  rewrite Hl1. simpl. split; [split; [done|]|].
  - intros h [= <-]. simpl. split; [lia|]. exists mo. by rewrite Hm2.
  - intros h Hin. apply list_elem_of_singleton in Hin. subst h. simpl. lia.
Qed.

(** A [highlight] whose navigation settles before the next event keeps
    [armed_ok], and a listener it leaves is a new one. *)
Lemma highlight_settled_armed (s : Session) (text : Value) :
  armed_ok s →
  armed_ok (highlight_settled s text).1
  ∧ ∀ h, h ∈ timeupdateListeners (highlight_settled s text).1 → handler_id h = created s.
Proof.
  intros Hok. unfold highlight_settled, highlight. rewrite (cleanup_disarms s Hok).
  assert (Hquiet : ∀ la ae,
             armed_ok (mkSession (view s) [] None la ae (created s))
             ∧ ∀ h, h ∈ timeupdateListeners (mkSession (view s) [] None la ae (created s)) →
                    handler_id h = created s)
    by (intros la ae; by apply quiet_ok).
  change (view (disarmed s)) with (view s).
  destruct (resolveNavigation (view s) text).1 as [resolved|e];
    [|destruct (mediaOverlay (view s)); apply Hquiet].
  destruct (mediaOverlay (view s)) as [mo|]; [|apply Hquiet].
  destruct (autoScroll mo).
  - unfold settle. simpl.
    destruct (renderer_goTo (renderer (view s)) resolved); [|apply Hquiet].
    by apply (navigated_arms (disarmed s) resolved).
  - repeat case_match; simplify_eq; apply Hquiet.
Qed.

(** [cleanupPageFlipHandler()] on an open view: it returns, the variable
    is cleared, no listener is added, and the handler that was held is
    off the audio element when there is one. *)
Lemma cleanup_open (s : Session) (mo : MediaOverlay) :
  mediaOverlay (view s) = Some mo →
  ∃ ls,
    cleanupPageFlipHandler s
    = Normal (mkSession (view s) ls None (lastActive s) (activeElements s) (created s))
    ∧ (∀ h, h ∈ ls → h ∈ timeupdateListeners s)
    ∧ (audio mo = true → ∀ h, pageFlipTimeupdateHandler s = Some h → h ∉ ls).
Proof.
  intros Hmo. unfold cleanupPageFlipHandler. rewrite Hmo.
  destruct s as [v ls [h|] la ae n]; simpl in *.
  - exists (if audio mo then List.filter (fun l => negb (same_handler l h)) ls else ls).
    split; [done|]. split.
    + intros h' Hin. destruct (audio mo); [|done].
      apply list_elem_of_In, filter_In in Hin as [Hin _]. by apply list_elem_of_In.
    + intros -> h' [= <-] Hin.
      apply list_elem_of_In, filter_In in Hin as [_ Hne].
      unfold same_handler in Hne. by rewrite Nat.eqb_refl in Hne.
  - exists ls. split; [done|]. split; [done|]. intros _ h' Hh'. discriminate.
Qed.

(** While the view is open, the [highlight] listener clears
    [pageFlipTimeupdateHandler] and registers no listener itself; the
    media overlay having an audio element, the handler that was held is
    off it when the listener returns.  With [autoScroll] on, the listener
    returns with its navigation started and nothing armed: arming is left
    to the callback of [then]. *)
Theorem highlight_cancels_previous_flip (s : Session) (text : Value)
    (mo : MediaOverlay) :
  mediaOverlay (view s) = Some mo →
  pageFlipTimeupdateHandler (highlight s text).1 = None
  ∧ (∀ h, h ∈ timeupdateListeners (highlight s text).1 → h ∈ timeupdateListeners s)
  ∧ (audio mo = true → ∀ h, pageFlipTimeupdateHandler s = Some h →
       h ∉ timeupdateListeners (highlight s text).1)
  ∧ (autoScroll mo = true →
       ∃ resolved,
         (highlight s text).2
         = Normal (Some (mkNavigation resolved
                           (renderer_goTo (renderer (view s)) resolved)))).
Proof.
  intros Hmo. destruct (cleanup_open s mo Hmo) as (ls & Hclean & Hsub & Hgone).
  unfold highlight. rewrite Hclean. cbn [view].
  destruct (NavigationFacts.resolveNavigation_returns (view s) text) as [resolved ->].
  rewrite Hmo. destruct (autoScroll mo) eqn:Hauto.
  - cbn. repeat split; try done. intros _. by exists resolved.
  - repeat case_match; cbn;
      (split; [done|]; split; [exact Hsub|]; split; [exact Hgone|];
       intros ?; congruence).
Qed.

Lemma highlight_cancels_previous_flip_witness :
  pageFlipTimeupdateHandler
    (highlight_settled NarrationFacts.listening (VString "s1.xhtml#sentence1")).1
  = Some NarrationFacts.armed
  ∧ timeupdateListeners
      (highlight (highlight_settled NarrationFacts.listening
                    (VString "s1.xhtml#sentence1")).1
                 (VString "s1.xhtml#sentence2")).1 = [].
Proof.
  split; [vm_compute; reflexivity|].
  destruct (highlight_cancels_previous_flip
              (highlight_settled NarrationFacts.listening
                 (VString "s1.xhtml#sentence1")).1
              (VString "s1.xhtml#sentence2")
              (mkMediaOverlay true (Some FlipFacts.example_item) true) eq_refl)
    as (_ & Hsub & Hgone & _).
  destruct (timeupdateListeners (highlight _ (VString "s1.xhtml#sentence2")).1)
    as [|h ls] eqn:Hls; [done|].
  exfalso. assert (Hin : h ∈ h :: ls) by (by left).
  pose proof (Hsub h Hin) as Hold.
  change (timeupdateListeners
            (highlight_settled NarrationFacts.listening
               (VString "s1.xhtml#sentence1")).1)
    with [NarrationFacts.armed] in Hold.
  apply list_elem_of_singleton in Hold. subst h.
  exact (Hgone eq_refl NarrationFacts.armed eq_refl Hin).
Defined.

(** On an open view an [unhighlight] does not throw: it clears
    [pageFlipTimeupdateHandler], registers no listener, takes the handler
    that was held off the audio element when there is one, and takes the
    active class off the element highlighted last.  After [close()] (the
    media overlay is null) it throws a TypeError if a handler is still
    held, before it has changed anything; if none is held it takes the
    active class off as before. *)
Theorem unhighlight_disarms (s : Session) :
  match mediaOverlay (view s) with
  | Some mo =>
    (unhighlight s).2 = Normal tt
    ∧ pageFlipTimeupdateHandler (unhighlight s).1 = None
    ∧ (∀ h, h ∈ timeupdateListeners (unhighlight s).1 → h ∈ timeupdateListeners s)
    ∧ (audio mo = true → ∀ h, pageFlipTimeupdateHandler s = Some h →
         h ∉ timeupdateListeners (unhighlight s).1)
    ∧ (∀ el, lastActive s = Some el → el ∉ activeElements (unhighlight s).1)
  | None =>
    (∀ h, pageFlipTimeupdateHandler s = Some h → unhighlight s = (s, Throw TypeError))
    ∧ (pageFlipTimeupdateHandler s = None →
       (unhighlight s).2 = Normal tt
       ∧ ∀ el, lastActive s = Some el → el ∉ activeElements (unhighlight s).1)
  end.
Proof.
  assert (Hclass : ∀ (el : nat) (ae : list nat),
             el ∉ List.filter (fun x => negb (Nat.eqb x el)) ae).
  { intros el ae Hin. apply list_elem_of_In, filter_In in Hin as [_ Hne].
    by rewrite Nat.eqb_refl in Hne. }
  destruct (mediaOverlay (view s)) as [mo|] eqn:Hmo.
  - destruct (cleanup_open s mo Hmo) as (ls & Hclean & Hsub & Hgone).
    unfold unhighlight. rewrite Hclean. cbn [lastActive].
    destruct (lastActive s) as [el|]; cbn.
    + repeat split; try done. intros el' [= <-]. apply Hclass.
    + repeat split; done.
  - unfold unhighlight, cleanupPageFlipHandler. rewrite Hmo. split.
    + intros h ->. done.
    + intros ->. destruct (lastActive s) as [el|]; cbn; [|done].
      split; [done|]. intros el' [= <-]. apply Hclass.
Qed.

(** Where the only listener on the audio element of an open view is the
    handler held in [pageFlipTimeupdateHandler], it turns the page at
    most once: a [timeupdate] gives one page flip and removes the
    listener if the time has reached its flip time, and does nothing
    otherwise; after the flip no [timeupdate] flips again.  Where the
    only listener is one that is no longer held, it stays registered and
    flips the page at every [timeupdate] that has reached its flip time. *)
Theorem flip_fires_at_most_once (s : Session) (h : Handler) (mo : MediaOverlay)
    (currentTime : float) :
  mediaOverlay (view s) = Some mo → audio mo = true → timeupdateListeners s = [h] →
  (pageFlipTimeupdateHandler s = Some h →
     timeupdate s currentTime
     = (if PrimFloat.leb (flipTime h) currentTime
        then (disarmed s, [PageFlip]) else (s, []))
     ∧ ∀ later, timeupdate (disarmed s) later = (disarmed s, []))
  ∧ (pageFlipTimeupdateHandler s = None →
     timeupdate s currentTime
     = (s, if PrimFloat.leb (flipTime h) currentTime then [PageFlip] else [])).
Proof.
  intros Hmo Haudio Hl.
  assert (Hsame : same_handler h h = true)
    by (unfold same_handler; apply Nat.eqb_refl).
  split; intros Hheld.
  - split; [|done].
    unfold timeupdate. rewrite Hl. cbn [fold_left fst snd]. rewrite Hl.
    cbn [existsb]. rewrite Hsame. cbn [orb].
    unfold run_listener. rewrite Hmo, Haudio. cbn [andb].
    destruct (PrimFloat.leb (flipTime h) currentTime); [|done].
    unfold cleanupPageFlipHandler. rewrite Hheld, Hmo, Haudio, Hl.
    cbn [List.filter]. rewrite Hsame. done.
  - unfold timeupdate. rewrite Hl. cbn [fold_left fst snd]. rewrite Hl.
    cbn [existsb]. rewrite Hsame. cbn [orb].
    unfold run_listener. rewrite Hmo, Haudio. cbn [andb].
    destruct (PrimFloat.leb (flipTime h) currentTime); [|done].
    unfold cleanupPageFlipHandler. rewrite Hheld. done.
Qed.

(** Two highlights of split sentences, the second arriving before the
    navigation of the first has settled; both navigations settle, and the
    audio passes the flip time. *)
Definition overlapped : Session :=
  session (run NarrationFacts.listening
             [Highlight (VString "s1.xhtml#sentence1");
              Highlight (VString "s1.xhtml#sentence2");
              Settled; Settled; Timeupdate 2310]).

(** The same events one by one.  Once both navigations have settled two
    listeners are registered and only the second is held; the first
    [timeupdate] past the flip time runs the first listener, which
    removes the second and flips; the first listener then flips again at
    every later [timeupdate].  An [unhighlight] that arrives before the
    navigation has settled leaves the listener and the active class that
    the callback sets afterwards. *)
Example overlapping_highlights :
  let sentence1 := Highlight (VString "s1.xhtml#sentence1") in
  let sentence2 := Highlight (VString "s1.xhtml#sentence2") in
  map handler_id
      (timeupdateListeners
         (session (run NarrationFacts.listening [sentence1; sentence2; Settled; Settled])))
  = [0; 1]%nat
  ∧ option_map handler_id
      (pageFlipTimeupdateHandler
         (session (run NarrationFacts.listening [sentence1; sentence2; Settled; Settled])))
    = Some 1%nat
  ∧ outcomes (run NarrationFacts.listening
                [sentence1; sentence2; Settled; Settled;
                 Timeupdate 2310; Timeupdate 2311; Timeupdate 2312])
    = [PageFlip; PageFlip; PageFlip]
  ∧ timeupdateListeners
      (session (run NarrationFacts.listening [sentence1; Unhighlight; Settled]))
    = [NarrationFacts.armed]
  ∧ activeElements
      (session (run NarrationFacts.listening [sentence1; Unhighlight; Settled]))
    ≠ [].
Proof. repeat split; vm_compute; (reflexivity || discriminate). Qed.

Lemma flip_fires_at_most_once_witness :
  timeupdateListeners overlapped = [NarrationFacts.armed]
  ∧ pageFlipTimeupdateHandler overlapped = None
  ∧ timeupdate overlapped 2311 = (overlapped, [PageFlip])
  ∧ timeupdate overlapped 2312 = (overlapped, [PageFlip]).
Proof.
  assert (Hl : timeupdateListeners overlapped = [NarrationFacts.armed])
    by (vm_compute; reflexivity).
  assert (Hheld : pageFlipTimeupdateHandler overlapped = None)
    by (vm_compute; reflexivity).
  split; [exact Hl|]. split; [exact Hheld|].
  split.
  - destruct (flip_fires_at_most_once overlapped NarrationFacts.armed
                (mkMediaOverlay true (Some FlipFacts.example_item) true) 2311
                eq_refl eq_refl Hl) as [_ Horphan].
    exact (Horphan Hheld).
  - destruct (flip_fires_at_most_once overlapped NarrationFacts.armed
                (mkMediaOverlay true (Some FlipFacts.example_item) true) 2312
                eq_refl eq_refl Hl) as [_ Horphan].
    exact (Horphan Hheld).
Defined.




End FlipListener.

(* ===================================================================== *)
(** ** [View]: the other ways to move, and relocation *)
(* ===================================================================== *)

Module ViewMoves.
Import View.

(** [async goToFraction(frac)]; [ref] is the identity of the wrapper
    object [{ fraction: frac }] that the call makes. *)
Definition goToFraction (v : t) (frac : float) (ref : nat)
    : t * Completion unit * list Effect :=
  match sectionProgress v with
  | None => (v, Throw TypeError, [])
  | Some progress =>
    match getSection progress frac with
    | Throw e => (v, Throw e, [])
    | Normal r =>
      match renderer_goTo (renderer v) (Some (mkResolved r.1 r.2)) with
      | Throw e => (v, Throw e, [])
      | Normal _ =>
        match History.pushState (history v) (VObject ref (VNumber frac)) with
        | Throw e => (v, Throw e, [])
        | Normal (h, evs) => (set_history v h, Normal tt, map Dispatched evs)
        end
      end
    end
  end.

(** [async goToFractionInSection(index, frac)]; of the pushed object
    [{ index, fraction: frac }] the history reads [fraction] only, which
    is what [VObject] keeps. *)
Definition goToFractionInSection (v : t) (index frac : float) (ref : nat)
    : t * Completion unit * list Effect :=
  match renderer_goTo (renderer v) (Some (mkResolved index (Some (AnchorNumber frac)))) with
  | Throw e => (v, Throw e, [])
  | Normal _ =>
    match History.pushState (history v) (VObject ref (VNumber frac)) with
    | Throw e => (v, Throw e, [])
    | Normal (h, evs) => (set_history v h, Normal tt, map Dispatched evs)
    end
  end.

(** [reason === 'snap' || reason === 'page' || reason === 'scroll'] *)
Definition records_position (reason : string) : bool :=
  String.eqb reason "snap" || String.eqb reason "page" || String.eqb reason "scroll".

(** [#onRelocate({ reason, range, index, ... })], as far as the history
    and the emitted event go. *)
Definition onRelocate (v : t) (reason : string) (index : float) (range : Span)
    : t * Completion unit * list Effect :=
  match getCFI v index range with
  | Throw e => (v, Throw e, [])
  | Normal cfi =>
    let h :=
      if records_position reason
      then History.replaceState (history v) (VString cfi)
      else history v in
    (set_history v h, Normal tt, [Emitted "relocate" cfi])
  end.

(** An entry of [book.landmarks]. *)
Record Landmark : Type := mkLandmark {
  types : list string;
  href : option Value
}.

(** What [goToTextStart] reads of the book besides its sections:
    [book.landmarks], and the [linear] attribute of each section in
    order. *)
Record Guide : Type := mkGuide {
  landmarks : option (list Landmark);
  linear : list (option string)
}.

(** [sections.findIndex(s => s.linear !== 'no')] *)
Fixpoint findIndex_linear (ls : list (option string)) (k : nat) : float :=
  match ls with
  | [] => PrimFloat.opp 1
  | l :: ls' =>
    match l with
    | Some "no"%string => findIndex_linear ls' (S k)
    | _ => number_of_nat k
    end
  end.

(** The target of [goToTextStart()]. *)
Definition textStart (guide : Guide) : Value :=
  let fallback := VNumber (findIndex_linear (linear guide) 0) in
  match landmarks guide with
  | None => fallback
  | Some ms =>
    match List.find (fun m => existsb (String.eqb "bodymatter") (types m)
                             || existsb (String.eqb "text") (types m)) ms with
    | Some m => default fallback (href m)
    | None => fallback
    end
  end.

Definition goToTextStart (v : t) (guide : Guide)
    : t * Completion (option Resolved) * list Effect :=
  goTo v (textStart guide).

(** [async init({ lastLocation, showTextStart })]; [next] is how
    [this.renderer.next()] settles. *)
Definition init (v : t) (guide : Guide) (lastLocation : Value) (showTextStart : bool)
    (next : Completion unit) : t * Completion unit * list Effect :=
  let resolved :=
    if truthy lastLocation then resolveNavigation v lastLocation
    else (Normal None, []) in
  match resolved with
  | (Throw e, eff) => (v, Throw e, eff)
  | (Normal (Some r), eff) =>
    match renderer_goTo (renderer v) (Some r) with
    | Throw e => (v, Throw e, eff)
    | Normal _ =>
      match History.pushState (history v) lastLocation with
      | Throw e => (v, Throw e, eff)
      | Normal (h, evs) => (set_history v h, Normal tt, eff ++ map Dispatched evs)
      end
    end
  | (Normal None, eff) =>
    if showTextStart then
      match goToTextStart v guide with
      | (v', Throw e, eff') => (v', Throw e, eff ++ eff')
      | (v', Normal _, eff') => (v', Normal tt, eff ++ eff')
      end
    else
      match History.pushState (history v) (VNumber 0) with
      | Throw e => (v, Throw e, eff)
      | Normal (h, evs) =>
        match next with
        | Throw e => (set_history v h, Throw e, eff ++ map Dispatched evs)
        | Normal _ => (set_history v h, Normal tt, eff ++ map Dispatched evs)
        end
      end
  end.

End ViewMoves.

Module ViewMovesFacts.
Import View ViewMoves.

(** On a book that lacks [splitTOCHref] or [getTOCFragment] the view has
    no section-progress tracker, and [goToFraction] rejects with a
    TypeError for every fraction, leaving the view as it was.  [goTo] with
    the wrapper [{ fraction }] on the same view does not reject: the
    target is unresolved and the call gives [undefined]. *)
Theorem goToFraction_needs_tracker (b : Book) (lib : CFILib) (r : Renderer)
    (progress : SectionProgress * TOCProgress * TOCProgress)
    (media : option MediaOverlay) (listener : Annotation -> option Draw)
    (frac : float) (ref : nat) :
  hasTOCCapability b = false →
  let v := open b lib r progress media listener in
  goToFraction v frac ref = (v, Throw TypeError, [])
  ∧ (resolveNavigation v (VObject ref (VNumber frac))).1 = Normal None
  ∧ (goTo v (VObject ref (VNumber frac))).1.2 = Normal None.
Proof.
  intros Hcap. unfold open. rewrite Hcap. cbv zeta.
  split; [done|]. split; [done|].
  unfold goTo. simpl. repeat case_match; done.
Qed.

Lemma goToFraction_needs_tracker_witness :
  (goToFraction (AnnotationFacts.unrendered (AnnotationFacts.linked_book false)) 0.5 1).1.2
  = Throw TypeError.
Proof.
  destruct (goToFraction_needs_tracker (AnnotationFacts.linked_book false)
              NavigationFacts.plain_cfi
              (mkRenderer (fun _ => Normal tt) [] NavigationFacts.paginated)
              (AnnotationFacts.by_size, AnnotationFacts.toc_labels,
               AnnotationFacts.toc_labels)
              None (fun _ => Some (Custom "highlight")) 0.5 1 eq_refl) as [H _].
  unfold AnnotationFacts.unrendered. rewrite H. reflexivity.
Defined.

(** [init] with a last location that resolves lets a rejection of the
    renderer through to its caller, the history untouched; [goTo] with
    the same target on the same view swallows the rejection and gives
    [undefined]. *)
Theorem init_propagates_rejection (v : t) (guide : Guide) (lastLocation : Value)
    (showTextStart : bool) (next : Completion unit) (r : Resolved) (e : JsError) :
  truthy lastLocation = true →
  (resolveNavigation v lastLocation).1 = Normal (Some r) →
  renderer_goTo (renderer v) (Some r) = Throw e →
  (init v guide lastLocation showTextStart next).1 = (v, Throw e)
  ∧ (goTo v lastLocation).1 = (v, Normal None).
Proof.
  intros Ht Hres Hgo. unfold init, goTo. rewrite Ht.
  destruct (resolveNavigation v lastLocation) as [c eff]. simpl in Hres. subst c.
  rewrite Hgo. done.
Qed.

Lemma init_propagates_rejection_witness :
  (init NavigationFacts.rejecting_view (mkGuide None []) (VNumber 2) false (Normal tt)).1
  = (NavigationFacts.rejecting_view, Throw (External "cannot display")).
Proof.
  destruct (init_propagates_rejection NavigationFacts.rejecting_view (mkGuide None [])
              (VNumber 2) false (Normal tt) (mkResolved 2 None)
              (External "cannot display") eq_refl eq_refl eq_refl) as [H _].
  exact H.
Defined.

(** Without a usable last location and without [showTextStart], [init]
    records the entry 0 before it asks for the next page: the history
    holds the push whether [next()] fulfils or rejects, and [init] settles
    as [next()] does. *)
Theorem init_first_page (v : t) (guide : Guide) (lastLocation : Value)
    (next : Completion unit) :
  truthy lastLocation = false ∨ (resolveNavigation v lastLocation).1 = Normal None →
  ∃ h evs,
    History.pushState (history v) (VNumber 0) = Normal (h, evs)
    ∧ (init v guide lastLocation false next).1.1 = set_history v h
    ∧ (init v guide lastLocation false next).1.2 = next.
Proof.
  intros Hcase.
  assert (Hpush : ∃ h evs, History.pushState (history v) (VNumber 0) = Normal (h, evs)).
  { unfold History.pushState, History.coalesces.
    destruct (arr_get _ _) as [| | | | |ref f]; simpl;
      repeat case_match; simpl; eauto.
    destruct (strict_equal f VUndefined); eauto. }
  destruct Hpush as (h & evs & Hpush). exists h, evs. split; [done|].
  unfold init.
  assert (Hres : (if truthy lastLocation then resolveNavigation v lastLocation
                  else (Normal None, [])).1 = Normal None).
  { destruct Hcase as [-> | H]; [done|]. by destruct (truthy lastLocation). }
  destruct (if truthy lastLocation then _ else _) as [c eff]. simpl in Hres. subst c.
  rewrite Hpush. by destruct next as [[]|e].
Qed.

Lemma init_first_page_witness :
  history (init NavigationFacts.sample_view (mkGuide None []) VUndefined false
                (Throw (External "no next page"))).1.1
  = History.mk (mkArray [VNumber 0] ∅) 0
  ∧ (init NavigationFacts.sample_view (mkGuide None []) VUndefined false
          (Throw (External "no next page"))).1.2
    = Throw (External "no next page").
Proof.
  destruct (init_first_page NavigationFacts.sample_view (mkGuide None []) VUndefined
              (Throw (External "no next page")) (or_introl eq_refl))
    as (h & evs & Hpush & Hview & Hresult).
  split; [|exact Hresult].
  rewrite Hview. injection Hpush as <- _. reflexivity.
Defined.

(** A relocation never grows or shrinks the back stack and never moves the
    pointer.  With reason [snap], [page] or [scroll] it puts the CFI of
    the new position in place of the current entry; with any other reason
    it leaves the history alone.  It fails, before touching the history,
    only when the section index is not one of the book's. *)
Theorem relocate_keeps_back_stack (v : t) (reason : string) (index : float)
    (range : Span) :
  History.pointer_ok (history v) →
  match getCFI v index range with
  | Throw e =>
    onRelocate v reason index range = (v, Throw e, [])
    ∧ item_at (sections (book v)) 0 index = None
  | Normal cfi =>
    let h' := history (onRelocate v reason index range).1.1 in
    (onRelocate v reason index range).1.2 = Normal tt
    ∧ History.index h' = History.index (history v)
    ∧ arr_length (History.arr h') = arr_length (History.arr (history v))
    ∧ (records_position reason = false → h' = history v)
    ∧ (records_position reason = true → (0 <= History.index (history v))%Z →
       arr_get (History.arr h') (History.index h') = VString cfi)
  end.
Proof.
  intros Hok. unfold onRelocate.
  destruct (getCFI v index range) as [cfi|e] eqn:Hcfi.
  - cbv zeta. simpl. split; [done|].
    destruct (records_position reason) eqn:Hr.
    + destruct (history v) as [[l ps] i] eqn:Hh. simpl.
      unfold History.pointer_ok, arr_length in Hok. simpl in Hok.
      unfold History.replaceState, arr_set, arr_length, arr_get. simpl.
      destruct (Z.leb_spec 0 i).
      * assert (Hi : (i < Z.of_nat (length l))%Z) by (destruct Hok as [[? ?]|?]; lia).
        destruct (Z.ltb_spec i (Z.of_nat (length l))); [|lia]. simpl.
        rewrite length_insert. repeat split; try done.
        intros _ _. rewrite list_lookup_insert_eq by lia. done.
      * simpl. repeat split; try done. intros _ ?. lia.
    + repeat split; try done.
  - split; [done|]. unfold getCFI in Hcfi.
    destruct (item_at (sections (book v)) 0 index); [|done].
    by destruct range.
Qed.

Lemma relocate_keeps_back_stack_witness :
  History.pointer_ok (history NavigationFacts.rejecting_view)
  ∧ arr_get
      (History.arr (history (onRelocate NavigationFacts.rejecting_view "page" 1 None).1.1))
      (History.index (history (onRelocate NavigationFacts.rejecting_view "page" 1 None).1.1))
    = VString "epubcfi(/6/2)".
Proof.
  assert (Hok : History.pointer_ok (history NavigationFacts.rejecting_view))
    by (right; unfold arr_length; simpl; lia).
  split; [exact Hok|].
  pose proof (relocate_keeps_back_stack NavigationFacts.rejecting_view "page" 1 None Hok)
    as H.
  change (getCFI NavigationFacts.rejecting_view 1 None)
    with (@Normal string "epubcfi(/6/2)") in H.
  destruct H as (_ & _ & _ & _ & H). apply H; [reflexivity|simpl; lia].
Defined.

Lemma findIndex_linear_none (ls : list (option string)) :
  Forall (fun l => l = Some "no"%string) ls →
  ∀ k, findIndex_linear ls k = PrimFloat.opp 1.
Proof. induction 1 as [|l ls -> _ IH]; intros k; simpl; [done|apply IH]. Qed.

Lemma findIndex_linear_first (skipped : nat) (l : option string)
    (rest : list (option string)) :
  l ≠ Some "no"%string →
  ∀ k, findIndex_linear (replicate skipped (Some "no"%string) ++ l :: rest) k
       = number_of_nat (k + skipped).
Proof.
  intros Hl. induction skipped as [|n IH]; intros k; simpl.
  - rewrite Nat.add_0_r.
    destruct l as [s|]; [|done].
    destruct (String.eqb_spec s "no") as [->|Hne]; [done|].
    repeat case_match; try done; subst; done.
  - rewrite IH. f_equal. lia.
Qed.

Lemma pushState_number (h : History.t) (n : float) :
  History.pointer_ok h →
  History.pushState h (VNumber n)
  = Normal (if strict_equal (arr_get (History.arr h) (History.index h)) (VNumber n)
            then (h, [])
            else (History.pushed h (VNumber n), [History.IndexChange])).
Proof.
  intros Hok.
  destruct (strict_equal (arr_get (History.arr h) (History.index h)) (VNumber n))
    eqn:Hlast.
  - by apply HistoryFacts.pushState_current_entry.
  - apply HistoryFacts.pushState_fresh; [done|].
    unfold History.coalesces. rewrite Hlast.
    destruct (arr_get (History.arr h) (History.index h)) as [| | | | |r f]; try done.
    simpl. destruct (truthy f) eqn:Hf; [|done]. simpl. by destruct f.
Qed.

(** When the book has no landmarks, [goToTextStart] is [goTo] of the
    index of the first section whose [linear] is not ['no'], the ones
    before it being passed over.  If every section is ['no'] (or there is
    none) it is [goTo(-1)]: when the renderer accepts [{ index: -1 }] the
    call resolves to that object and -1 is pushed onto the history,
    unless -1 is the current entry already; either way -1 is the current
    entry afterwards. *)
Theorem text_start_fallback (v : t) (ls : list (option string)) :
  History.pointer_ok (history v) →
  (∀ skipped l rest,
     ls = replicate skipped (Some "no"%string) ++ l :: rest →
     l ≠ Some "no"%string →
     goToTextStart v (mkGuide None ls) = goTo v (VNumber (number_of_nat skipped)))
  ∧ (Forall (fun l => l = Some "no"%string) ls →
     goToTextStart v (mkGuide None ls) = goTo v (VNumber (PrimFloat.opp 1))
     ∧ (renderer_goTo (renderer v) (Some (mkResolved (PrimFloat.opp 1) None))
        = Normal tt →
        let after := history (goToTextStart v (mkGuide None ls)).1.1 in
        (goToTextStart v (mkGuide None ls)).1.2
        = Normal (Some (mkResolved (PrimFloat.opp 1) None))
        ∧ after
          = (if strict_equal
                  (arr_get (History.arr (history v)) (History.index (history v)))
                  (VNumber (PrimFloat.opp 1))
             then history v
             else History.pushed (history v) (VNumber (PrimFloat.opp 1)))
        ∧ strict_equal (arr_get (History.arr after) (History.index after))
                       (VNumber (PrimFloat.opp 1)) = true)).
Proof.
  intros Hok. split.
  - intros skipped l rest -> Hl. unfold goToTextStart, textStart. simpl.
    by rewrite (findIndex_linear_first skipped l rest Hl 0).
  - intros Hall. unfold goToTextStart, textStart. cbn [landmarks linear].
    rewrite (findIndex_linear_none ls Hall 0). split; [done|].
    intros Hgo. unfold goTo.
    change (resolveNavigation v (VNumber (PrimFloat.opp 1)))
      with (@Normal (option Resolved) (Some (mkResolved (PrimFloat.opp 1) None)),
            @nil Effect).
    cbv beta iota. rewrite Hgo.
    rewrite (pushState_number (history v) (PrimFloat.opp 1) Hok).
    destruct (strict_equal
                (arr_get (History.arr (history v)) (History.index (history v)))
                (VNumber (PrimFloat.opp 1))) eqn:Hlast;
      cbv beta iota; cbn [fst snd history set_history].
    + split; [done|]. split; [done|]. exact Hlast.
    + split; [done|]. split; [done|].
      rewrite (HistoryFacts.arr_get_pushed (history v) _ Hok). reflexivity.
Qed.

Lemma text_start_fallback_witness :
  History.pointer_ok (history NavigationFacts.sample_view)
  ∧ history (goToTextStart NavigationFacts.sample_view
               (mkGuide None [Some "no"%string; Some "no"%string])).1.1
    = History.pushed (history NavigationFacts.sample_view) (VNumber (PrimFloat.opp 1))
  ∧ goToTextStart NavigationFacts.sample_view
      (mkGuide None [Some "no"%string; None; Some "no"%string])
    = goTo NavigationFacts.sample_view (VNumber 1).
Proof.
  assert (Hok : History.pointer_ok (history NavigationFacts.sample_view))
    by (vm_compute; auto).
  split; [exact Hok|].
  destruct (text_start_fallback NavigationFacts.sample_view
              [Some "no"%string; Some "no"%string] Hok) as [_ Hnone].
  destruct (Hnone ltac:(repeat constructor)) as [_ Hpush].
  destruct (Hpush eq_refl) as (_ & Hafter & _).
  split; [exact Hafter|].
  destruct (text_start_fallback NavigationFacts.sample_view
              [Some "no"%string; None; Some "no"%string] Hok) as [Hfirst _].
  exact (Hfirst 1%nat None [Some "no"%string] eq_refl ltac:(discriminate)).
Defined.

(** A push by [goToFractionInSection] is dropped when the current entry is
    a fraction wrapper with the same fraction (not 0, not NaN), such as
    the one [goToFraction] pushes, although the one fraction is counted
    within a section and the other over the whole book. *)
Theorem section_fraction_coalesces (v : t) (index frac : float) (ref ref' : nat) :
  arr_get (History.arr (history v)) (History.index (history v))
  = VObject ref' (VNumber frac) →
  truthy_number frac = true →
  renderer_goTo (renderer v) (Some (mkResolved index (Some (AnchorNumber frac))))
  = Normal tt →
  goToFractionInSection v index frac ref = (set_history v (history v), Normal tt, []).
Proof.
  intros Hlast Ht Hgo. unfold goToFractionInSection. rewrite Hgo.
  assert (Heq : PrimFloat.eqb frac frac = true).
  { unfold truthy_number, PrimFloat.is_nan in Ht.
    destruct (PrimFloat.eqb frac frac); [done|].
    by rewrite orb_true_r in Ht. }
  unfold History.pushState, History.coalesces. rewrite Hlast. simpl.
  rewrite Ht. simpl. rewrite Heq. by destruct (ref' =? ref)%nat.
Qed.

Lemma section_fraction_coalesces_witness :
  goToFractionInSection
    (set_history NavigationFacts.sample_view
                 (History.mk (mkArray [VObject 1 (VNumber 0.5)] ∅) 0))
    3 0.5 2
  = (set_history NavigationFacts.sample_view
                 (History.mk (mkArray [VObject 1 (VNumber 0.5)] ∅) 0),
     Normal tt, []).
Proof.
  exact (section_fraction_coalesces
           (set_history NavigationFacts.sample_view
                        (History.mk (mkArray [VObject 1 (VNumber 0.5)] ∅) 0))
           3 0.5 2 1 eq_refl eq_refl eq_refl).
Defined.

End ViewMovesFacts.

(* ===================================================================== *)
(** ** More about [search] *)
(* ===================================================================== *)

Module SearchFacts.
Import View RegistryFacts.






(** *** A search of one section *)









(** *** A search of the whole book when the book has no table of contents *)







End SearchFacts.
